(** * QRCodeScanner: the per-frame pipeline of [qrcode_python.py]

    A shallow embedding of the [QRCodeScanner] node: the frame throttle,
    the FPS accumulator, the two-layer deduplication of decoded payloads,
    the append-only CSV history and the rate-limited browser dispatch.

    Modelling conventions.
    - Python integers are unbounded: [Z]; [%] with a non-zero divisor is
      floored, exactly [Z.modulo]; a zero divisor raises.
    - [time.time()] yields seconds as a float; instants are modelled as
      exact rationals [Q] (every float is one), with exact subtraction.
    - Text is [string], holding the UTF-8 encoding of the Python text (so
      equality and prefixes are those of the text, and a character is a
      lead byte with its continuation bytes); [decoded_data] is the Python
      list it is in the source, with [in] and [append].
    - The outside world is given by oracles, one value per call site:
      what the clock returns, what the camera and the decoder return,
      whether the file system fails.  The file [scan_history.csv] is an
      explicit value threaded through the calls; log records and started
      threads are returned as a list of events, oldest first.
    - The rendering branch ([show_gui], lines 158-188) assigns none of the
      fields below and does not touch the CSV file; it is left out of
      [process_frame], and its pieces are modelled on their own.  Of the
      exceptions a callback can raise only the zero modulus of line 126
      is modelled: what OpenCV, the decoder, [Thread.start] or [mkdir]
      may raise is not. *)

From Stdlib Require Import ZArith QArith Lia Lqa List String Ascii Bool.
From Stdlib Require Import DecimalString DecimalPos DecimalZ.
Import ListNotations.

Local Open Scope string_scope.
Local Open Scope list_scope.

(** ** Configuration and state *)

Record Config := mkConfig {
  show_gui : bool;
  skip_frames : Z;
  base_save_dir : string;
  open_interval : Q
}.

(** The defaults of [declare_parameter]. *)
Definition default_config : Config :=
  mkConfig false 2%Z "~/qrcode_scans" 5%Q.

(** The attributes assigned in [__init__] and mutated afterwards. *)
Record Scanner := mkScanner {
  last_decoded_data : option string;
  last_open_time : Q;
  frame_count : Z;
  fps : Z;
  start_time : Q;
  decoded_data : list string;
  frame_counter : Z
}.

(** [__init__], lines 35-41; [t0] is what [time.time()] returns there. *)
Definition init (t0 : Q) : Scanner :=
  {| last_decoded_data := None;
     last_open_time := 0%Q;
     frame_count := 0%Z;
     fps := 0%Z;
     start_time := t0;
     decoded_data := [];
     frame_counter := 0%Z |}.

Definition set_last_decoded_data (s : Scanner) (v : option string) : Scanner :=
  {| last_decoded_data := v;
     last_open_time := last_open_time s;
     frame_count := frame_count s;
     fps := fps s;
     start_time := start_time s;
     decoded_data := decoded_data s;
     frame_counter := frame_counter s |}.

Definition set_last_open_time (s : Scanner) (v : Q) : Scanner :=
  {| last_decoded_data := last_decoded_data s;
     last_open_time := v;
     frame_count := frame_count s;
     fps := fps s;
     start_time := start_time s;
     decoded_data := decoded_data s;
     frame_counter := frame_counter s |}.

Definition set_decoded_data (s : Scanner) (v : list string) : Scanner :=
  {| last_decoded_data := last_decoded_data s;
     last_open_time := last_open_time s;
     frame_count := frame_count s;
     fps := fps s;
     start_time := start_time s;
     decoded_data := v;
     frame_counter := frame_counter s |}.

Definition set_frame_counter (s : Scanner) (v : Z) : Scanner :=
  {| last_decoded_data := last_decoded_data s;
     last_open_time := last_open_time s;
     frame_count := frame_count s;
     fps := fps s;
     start_time := start_time s;
     decoded_data := decoded_data s;
     frame_counter := v |}.

Definition set_fps_window (s : Scanner) (count rate : Z) (start : Q) : Scanner :=
  {| last_decoded_data := last_decoded_data s;
     last_open_time := last_open_time s;
     frame_count := count;
     fps := rate;
     start_time := start;
     decoded_data := decoded_data s;
     frame_counter := frame_counter s |}.

(** ** The world outside the node *)

(** A CSV row is the list of its fields. *)
Definition Row := list string.

(** [scan_history.csv]: absent, or present with its rows. *)
Definition CsvFile := option (list Row).

Definition csv_header : Row := ["时间"; "二维码内容"].

(** What a call logs or launches. *)
Inductive Event :=
| LogDecoded (stamp payload : string)   (* info, line 100 *)
| LogCsvFailed                          (* error, line 77 *)
| LogTooFrequent                        (* info, line 110 *)
| LogNotUrl                             (* info, line 112 *)
| LogReadFailed                         (* error, line 132 *)
| LogDecodeWarning                      (* warn, line 150 *)
| LogDecodeError                        (* error, line 153 *)
| BrowserThread (url : string).         (* Thread(...).start(), line 107 *)

Inductive Exn := ZeroDivisionError | OSError.

(** Where the file system lets an append down, if anywhere. *)
Inductive CsvFault :=
| CsvFine
| CsvOpenFails     (* [open] raises: the file is left as it was *)
| CsvWriteFails.   (* [open] succeeds (creating the file when absent),
                      then a write raises and nothing reaches the file *)

(** ** Comparisons as the source writes them *)

(** [x > y] on instants. *)
Definition Qgtb (x y : Q) : bool := negb (Qle_bool x y).

(** [x in l] on a Python list of strings. *)
Definition mem (x : string) (l : list string) : bool :=
  existsb (String.eqb x) l.

(** [x != y] where [y] is a string or [None]. *)
Definition differs (x : string) (y : option string) : bool :=
  match y with
  | None => true
  | Some y' => negb (String.eqb x y')
  end.

(** [is_url], line 65: [re.match(r'^https?://', string) is not None]. *)
Definition is_url (s : string) : bool :=
  String.prefix "http://" s || String.prefix "https://" s.

(** ** [save_to_csv], lines 68-77 *)

(** The body of the [try]: the file afterwards and how the block ended. *)
Definition csv_try (f : CsvFile) (stamp data : string) (fault : CsvFault)
  : CsvFile * (Exn + unit) :=
  let file_exists := match f with Some _ => true | None => false end in
  match fault with
  | CsvOpenFails => (f, inl OSError)
  | CsvWriteFails =>
      (Some (match f with Some rows => rows | None => [] end), inl OSError)
  | CsvFine =>
      let rows := match f with Some rows => rows | None => [] end in
      let rows := if negb file_exists then rows ++ [csv_header] else rows in
      (Some (rows ++ [[stamp; data]]), inr tt)
  end.

(** The whole method: the [except] clause logs and swallows the error. *)
Definition save_to_csv (f : CsvFile) (stamp data : string) (fault : CsvFault)
  : CsvFile * list Event :=
  match csv_try f stamp data fault with
  | (f', inr _) => (f', [])
  | (f', inl _) => (f', [LogCsvFailed])
  end.

(** ** [handle_qr_data], lines 97-115 *)

(** The oracles one call consumes. *)
Record HandleEnv := mkHandleEnv {
  log_stamp : string;     (* [time.strftime], line 100 *)
  csv_stamp : string;     (* [time.strftime], line 75 *)
  csv_fault : CsvFault;
  now : Q                 (* [time.time()], line 104 *)
}.

Record Handled := mkHandled {
  h_node : Scanner;
  h_csv : CsvFile;
  h_events : list Event;
  h_ret : option string
}.

(** The condition of line 98. *)
Definition is_new (s : Scanner) (QR_data : string) : bool :=
  differs QR_data (last_decoded_data s) && negb (mem QR_data (decoded_data s)).

Definition handle_qr_data (cfg : Config) (s : Scanner) (f : CsvFile)
    (QR_data : string) (e : HandleEnv) : Handled :=
  if is_new s QR_data then
    let s1 := set_decoded_data s (decoded_data s ++ [QR_data]) in
    let ev1 := [LogDecoded (log_stamp e) QR_data] in
    let '(f1, ev2) := save_to_csv f (csv_stamp e) QR_data (csv_fault e) in
    if is_url QR_data then
      let current_time := now e in
      if Qgtb (current_time - last_open_time s1) (open_interval cfg) then
        mkHandled (set_last_open_time s1 current_time) f1
                  (ev1 ++ ev2 ++ [BrowserThread QR_data]) (Some QR_data)
      else
        mkHandled s1 f1 (ev1 ++ ev2 ++ [LogTooFrequent]) (Some QR_data)
    else
      mkHandled s1 f1 (ev1 ++ ev2 ++ [LogNotUrl]) (Some QR_data)
  else
    mkHandled s f [] (last_decoded_data s).

(** Line 157: [self.last_decoded_data = self.handle_qr_data(QR_data)]. *)
Definition accept (cfg : Config) (s : Scanner) (f : CsvFile)
    (QR_data : string) (e : HandleEnv) : Scanner * CsvFile * list Event :=
  let h := handle_qr_data cfg s f QR_data e in
  (set_last_decoded_data (h_node h) (h_ret h), h_csv h, h_events h).

(** Whether a call launched the browser thread. *)
Definition is_browser_thread (ev : Event) : bool :=
  match ev with BrowserThread _ => true | _ => false end.

Definition dispatched (h : Handled) : bool :=
  existsb is_browser_thread (h_events h).

(** ** [process_frame], lines 124-157 *)

(** [QR.data.decode('utf-8')] for one region found by [decode(frame)]. *)
Inductive Decoding :=
| Text (QR_data : string)
| UnicodeDecodeError
| OtherException.

Record Region := mkRegion {
  r_data : Decoding;
  r_env : HandleEnv
}.

(** The oracles one tick consumes.  [t_read = None] stands for
    [not ret or frame is None]; otherwise it holds [decode(frame)]. *)
Record Tick := mkTick {
  t_read : option (list Region);
  t_elapsed : Q;     (* [time.time()], line 137 *)
  t_restart : Q      (* [time.time()], line 141 *)
}.

Inductive Outcome := Skipped | ReadFailed | Processed.

Record Ticked := mkTicked {
  k_outcome : Outcome;
  k_node : Scanner;
  k_csv : CsvFile;
  k_events : list Event
}.

(** The body of the [for] loop, lines 147-157. *)
Definition scan_region (cfg : Config) (acc : Scanner * CsvFile * list Event)
    (r : Region) : Scanner * CsvFile * list Event :=
  let '(s, f, evs) := acc in
  match r_data r with
  | Text QR_data =>
      let '(s', f', evs') := accept cfg s f QR_data (r_env r) in
      (s', f', evs ++ evs')
  | UnicodeDecodeError => (s, f, evs ++ [LogDecodeWarning])
  | OtherException => (s, f, evs ++ [LogDecodeError])
  end.

(** Lines 136-141. *)
Definition update_fps (s : Scanner) (t : Tick) : Scanner :=
  let count := (frame_count s + 1)%Z in
  let elapsed := (t_elapsed t - start_time s)%Q in
  if Qle_bool 1 elapsed
  then set_fps_window s 0%Z count (t_restart t)
  else set_fps_window s count (fps s) (start_time s).

Definition process_frame (cfg : Config) (s : Scanner) (f : CsvFile) (t : Tick)
  : Exn + Ticked :=
  let m := (skip_frames cfg + 1)%Z in
  if (m =? 0)%Z then inl ZeroDivisionError
  else
    let s1 := set_frame_counter s ((frame_counter s + 1) mod m)%Z in
    if negb (frame_counter s1 =? 0)%Z then inr (mkTicked Skipped s1 f [])
    else
      match t_read t with
      | None => inr (mkTicked ReadFailed s1 f [LogReadFailed])
      | Some QR_codes =>
          let s2 := update_fps s1 t in
          let '(s3, f3, evs) := fold_left (scan_region cfg) QR_codes (s2, f, []) in
          inr (mkTicked Processed s3 f3 evs)
      end.

(** ** Runs *)

(** One handled payload with its oracles. *)
Definition Scan := (string * HandleEnv)%type.

(** Line 157 over a sequence of payloads, in order. *)
Fixpoint accept_all (cfg : Config) (s : Scanner) (f : CsvFile)
    (scans : list Scan) : Scanner * CsvFile :=
  match scans with
  | [] => (s, f)
  | (QR_data, e) :: rest =>
      let '(s', f', _) := accept cfg s f QR_data e in
      accept_all cfg s' f' rest
  end.

(** The instants [current_time] of the calls that launched the browser. *)
Fixpoint dispatch_times (cfg : Config) (s : Scanner) (f : CsvFile)
    (scans : list Scan) : list Q :=
  match scans with
  | [] => []
  | (QR_data, e) :: rest =>
      let h := handle_qr_data cfg s f QR_data e in
      let '(s', f', _) := accept cfg s f QR_data e in
      (if dispatched h then [now e] else [])
        ++ dispatch_times cfg s' f' rest
  end.

(** How many instants of [l] lie in the closed window from [t1] to [t2]. *)
Definition count_within (t1 t2 : Q) (l : list Q) : nat :=
  List.length (filter (fun d => Qle_bool t1 d && Qle_bool d t2) l).

(** Successive timer callbacks; an exception ends the run. *)
Fixpoint run_ticks (cfg : Config) (s : Scanner) (f : CsvFile)
    (ticks : list Tick) : Exn + (list Outcome * Scanner * CsvFile) :=
  match ticks with
  | [] => inr ([], s, f)
  | t :: rest =>
      match process_frame cfg s f t with
      | inl x => inl x
      | inr k =>
          match run_ticks cfg (k_node k) (k_csv k) rest with
          | inl x => inl x
          | inr (os, s', f') => inr (k_outcome k :: os, s', f')
          end
      end
  end.

Definition passed (o : Outcome) : bool :=
  match o with Skipped => false | _ => true end.

(** The ticks of a run that got past the throttle. *)
Definition count_passed (os : list Outcome) : Z :=
  Z.of_nat (List.length (filter passed os)).

(** The states a node goes through: from [__init__], by handled payloads
    (line 157) and by whole timer callbacks. *)
Inductive reachable (cfg : Config) : Scanner -> Prop :=
| reach_init : forall t0, reachable cfg (init t0)
| reach_accept : forall s f QR_data e s' f' evs,
    reachable cfg s ->
    accept cfg s f QR_data e = (s', f', evs) ->
    reachable cfg s'
| reach_tick : forall s f t k,
    reachable cfg s ->
    process_frame cfg s f t = inr k ->
    reachable cfg (k_node k).

(** The rows a history file holds; none when it is absent. *)
Definition rows_of (f : CsvFile) : list Row :=
  match f with Some rows => rows | None => [] end.

(** Fault-free appends of (timestamp, content) records, in order. *)
Definition append_all (f : CsvFile) (records : list (string * string)) : CsvFile :=
  fold_left (fun f r => fst (save_to_csv f (fst r) (snd r) CsvFine)) records f.

Definition record_row (r : string * string) : Row := [fst r; snd r].

(** ** Sample inputs *)

Definition sample_url : string := "https://example.com".
Definition other_url : string := "https://example.org".
Definition sample_text : string := "hello world".

(** Oracles of a call at instant [t]: the disk works, or [open] fails. *)
Definition env_at (t : Q) : HandleEnv :=
  mkHandleEnv "2024-05-01 10:00:00" "2024-05-01 10:00:00" CsvFine t.

Definition env_disk_down (t : Q) : HandleEnv :=
  mkHandleEnv "2024-05-01 10:00:00" "2024-05-01 10:00:00" CsvOpenFails t.

(** A tick on which the camera delivers nothing. *)
Definition blind_tick : Tick := mkTick None 0%Q 0%Q.

(** A node two skipped ticks after [__init__], under the default
    [skip_frames = 2]. *)
Definition two_ticks_in : Scanner := set_frame_counter (init 0%Q) 2%Z.

(** A history file left behind by an earlier process. *)
Definition old_history : CsvFile :=
  Some [csv_header; ["2024-04-30 09:00:00"; sample_text]].

(** ** [draw_qr_info], lines 80-86 *)

(** A continuation byte of UTF-8: [10xxxxxx]. *)
Definition is_continuation (c : Ascii.ascii) : bool :=
  ((128 <=? Ascii.N_of_ascii c) && (Ascii.N_of_ascii c <? 192))%N.

(** [len(text)]: the characters of a text are the bytes of its encoding
    that are not continuation bytes. *)
Fixpoint py_len (text : string) : nat :=
  match text with
  | EmptyString => 0%nat
  | String c rest =>
      if is_continuation c then py_len rest else S (py_len rest)
  end.

(** [text[:n]]: the first [n] characters, each with its continuation
    bytes. *)
Fixpoint py_take (n : nat) (text : string) : string :=
  match text with
  | EmptyString => EmptyString
  | String c rest =>
      if is_continuation c then String c (py_take n rest)
      else match n with
           | O => EmptyString
           | S n' => String c (py_take n' rest)
           end
  end.

(** Line 84: [qr_data[:40] + "..." if len(qr_data) > 40 else qr_data]. *)
Definition display_text (qr_data : string) : string :=
  if (40 <? py_len qr_data)%nat
  then String.append (py_take 40 qr_data) "..."
  else qr_data.

(** What the method asks OpenCV to draw on the frame. *)
Inductive Drawing :=
| Rectangle (x1 y1 x2 y2 : Z)          (* [cv2.rectangle], line 82 *)
| PutText (text : string) (x y : Z).   (* [cv2.putText], line 85 *)

Definition draw_qr_info (qr_data : string) (rect : Z * Z * Z * Z)
  : list Drawing :=
  let '(x, y, w, h) := rect in
  [Rectangle x y (x + w) (y + h); PutText (display_text qr_data) x (y - 10)].

(** ** The key handler, lines 173-188 *)

(** [ord(c)]. *)
Definition ord (c : Ascii.ascii) : Z := Z.of_N (Ascii.N_of_ascii c).

Inductive KeyAction := KeyQuit | KeyScreenshot | KeyDebug | KeyNone.

(** [key = cv2.waitKey(1) & 0xFF] and the [if]/[elif] chain on it;
    [waitKey] is what [cv2.waitKey] returned, -1 when no key was pressed. *)
Definition key_action (waitKey : Z) : KeyAction :=
  let key := Z.land waitKey 255 in
  if (key =? ord "q")%Z then KeyQuit
  else if (key =? ord "s")%Z then KeyScreenshot
  else if (key =? ord "d")%Z then KeyDebug
  else KeyNone.

(** ** Screenshot paths, lines 118-122 and 178-179 *)

(** A [pathlib] path, as the list of its components. *)
Definition Path := list string.

(** [int(x)] on a float: truncation towards zero. *)
Definition py_int (x : Q) : Z := Z.quot (Qnum x) (Z.pos (Qden x)).

(** [str(n)] on an integer: decimal digits, a leading [-] when negative. *)
Definition py_str (n : Z) : string := NilZero.string_of_int (Z.to_int n).

(** [get_daily_screenshot_dir]; [today] is what
    [datetime.now().strftime("%Y-%m-%d")] returns.  The [mkdir] of the
    directory is left to the file system. *)
Definition get_daily_screenshot_dir (base : Path) (today : string) : Path :=
  base ++ ["screenshots"; today].

(** Line 179: [daily_dir / f"screenshot_{int(time.time())}.jpg"]. *)
Definition screenshot_filename (base : Path) (today : string) (t : Q) : Path :=
  get_daily_screenshot_dir base today
    ++ [String.append "screenshot_" (String.append (py_str (py_int t)) ".jpg")].

(** ** Readings of a tick *)

(** The payloads a list of events announces (line 100), in order. *)
Fixpoint announced (evs : list Event) : list string :=
  match evs with
  | [] => []
  | LogDecoded _ p :: rest => p :: announced rest
  | _ :: rest => announced rest
  end.

(** The URLs a list of events opens (line 107), in order. *)
Fixpoint opened (evs : list Event) : list string :=
  match evs with
  | [] => []
  | BrowserThread u :: rest => u :: opened rest
  | _ :: rest => opened rest
  end.

(** The content field of a data row. *)
Definition payload_of (r : Row) : string := nth 1 r "".

Definition is_text (r : Region) : bool :=
  match r_data r with Text _ => true | _ => false end.

(** No append of the call, or of the tick, is let down by the file system. *)
Definition region_fault_free (r : Region) : Prop :=
  csv_fault (r_env r) = CsvFine.

Definition tick_fault_free (t : Tick) : Prop :=
  match t_read t with
  | None => True
  | Some QR_codes => Forall region_fault_free QR_codes
  end.

(** The history file agrees with [decoded_data]: absent while nothing was
    accepted, otherwise the header and one row per accepted payload, in
    the order of acceptance. *)
Definition history_matches (s : Scanner) (f : CsvFile) : Prop :=
  match f with
  | None => decoded_data s = []
  | Some rows =>
      exists data_rows,
        rows = csv_header :: data_rows /\
        data_rows <> [] /\
        map payload_of data_rows = decoded_data s
  end.

(** What a stretch of processing may do to the node and the file: it
    appends to [decoded_data] the payloads it announces, adds rows at the
    end of the file (the header, or a data row for a payload it
    announces) and never removes the file, moves [last_open_time]
    forward when [open_interval] is not negative, and opens only URLs it
    has just announced. *)
Definition advances (cfg : Config) (s : Scanner) (f : CsvFile)
    (evs : list Event) (s' : Scanner) (f' : CsvFile) : Prop :=
  decoded_data s' = decoded_data s ++ announced evs /\
  (exists added,
     rows_of f' = rows_of f ++ added /\
     Forall (fun r => r = csv_header \/
                      exists stamp p, r = [stamp; p] /\ In p (announced evs))
            added) /\
  (f <> None -> f' <> None) /\
  ((0 <= open_interval cfg)%Q -> (last_open_time s <= last_open_time s')%Q) /\
  (forall u, In u (opened evs) -> is_url u = true /\ In u (announced evs)).

(** The log records of lines 150 and 153. *)
Definition is_decode_log (ev : Event) : bool :=
  match ev with
  | LogDecodeWarning | LogDecodeError => true
  | _ => false
  end.

(** The same tick without the regions whose bytes do not decode. *)
Definition drop_undecodable (t : Tick) : Tick :=
  mkTick (option_map (filter is_text) (t_read t)) (t_elapsed t) (t_restart t).

(** A configuration that processes every frame, and a frame showing an
    undecodable region and a URL, with what the first tick makes of it. *)
Definition every_frame : Config := mkConfig false 0%Z "~/qrcode_scans" 5%Q.

Definition url_tick : Tick :=
  mkTick (Some [mkRegion UnicodeDecodeError (env_at 10%Q);
                mkRegion (Text sample_url) (env_at 10%Q)])
         (1 # 2) (1 # 2).

Definition url_tick_result : Ticked :=
  mkTicked Processed
    (mkScanner (Some sample_url) 10%Q 1%Z 0%Z 0%Q [sample_url] 0%Z)
    (Some [csv_header; ["2024-05-01 10:00:00"; sample_url]])
    [LogDecodeWarning; LogDecoded "2024-05-01 10:00:00" sample_url;
     BrowserThread sample_url].

(** A log without the records of lines 150 and 153. *)
Definition without_decode_logs (evs : list Event) : list Event :=
  filter (fun ev => negb (is_decode_log ev)) evs.

(** ** The comparisons, read back as propositions *)

Lemma Qgtb_lt (x y : Q) : Qgtb x y = true <-> (y < x)%Q.
Proof.
  unfold Qgtb. rewrite negb_true_iff.
  destruct (Qle_bool x y) eqn:E.
  - apply Qle_bool_iff in E. split; [discriminate | intro H].
    exfalso. apply (Qlt_not_le _ _ H E).
  - split; [intros _ | reflexivity].
    apply Qnot_le_lt. intro H. apply Qle_bool_iff in H. congruence.
Qed.

Lemma mem_In (x : string) (l : list string) : mem x l = true <-> In x l.
Proof.
  unfold mem. rewrite existsb_exists. split.
  - intros [y [Hy E]]. apply String.eqb_eq in E. now subst.
  - intro H. exists x. split; [assumption | apply String.eqb_refl].
Qed.

Lemma mem_not_In (x : string) (l : list string) : mem x l = false <-> ~ In x l.
Proof.
  rewrite <- mem_In. destruct (mem x l); split; intro H; congruence.
Qed.

Lemma differs_neq (x : string) (y : option string) :
  differs x y = true <-> y <> Some x.
Proof.
  destruct y as [y|]; simpl.
  - rewrite negb_true_iff, String.eqb_neq. split; intro H; congruence.
  - split; [discriminate | reflexivity].
Qed.

Lemma is_new_iff (s : Scanner) (p : string) :
  is_new s p = true <->
  last_decoded_data s <> Some p /\ ~ In p (decoded_data s).
Proof.
  unfold is_new.
  rewrite andb_true_iff, negb_true_iff, differs_neq, mem_not_In. reflexivity.
Qed.

Lemma seen_is_not_new (s : Scanner) (p : string) :
  In p (decoded_data s) -> is_new s p = false.
Proof.
  intro H. destruct (is_new s p) eqn:E; [|reflexivity].
  apply is_new_iff in E. tauto.
Qed.

(** ** What one call of [handle_qr_data] does *)

Lemma save_to_csv_events (f : CsvFile) (stamp data : string) (fault : CsvFault) :
  existsb is_browser_thread (snd (save_to_csv f stamp data fault)) = false.
Proof. destruct fault; reflexivity. Qed.

(** A payload that is not new: nothing happens. *)
Lemma handle_seen cfg s f p e :
  is_new s p = false ->
  handle_qr_data cfg s f p e = mkHandled s f [] (last_decoded_data s).
Proof. intro H. unfold handle_qr_data. now rewrite H. Qed.

(** A new payload: the effects all three branches share. *)
Lemma handle_new cfg s f p e :
  is_new s p = true ->
  let h := handle_qr_data cfg s f p e in
  decoded_data (h_node h) = decoded_data s ++ [p] /\
  last_decoded_data (h_node h) = last_decoded_data s /\
  h_ret h = Some p /\
  h_csv h = fst (save_to_csv f (csv_stamp e) p (csv_fault e)) /\
  exists final,
    h_events h =
    LogDecoded (log_stamp e) p
      :: snd (save_to_csv f (csv_stamp e) p (csv_fault e)) ++ [final].
Proof.
  intro H. unfold handle_qr_data. rewrite H.
  destruct (save_to_csv f (csv_stamp e) p (csv_fault e)) as [f1 ev2].
  destruct (is_url p); [destruct (Qgtb _ _)|]; simpl;
    repeat split; eexists; reflexivity.
Qed.

(** The fields [handle_qr_data] never assigns. *)
Lemma handle_frame cfg s f p e :
  let s' := h_node (handle_qr_data cfg s f p e) in
  frame_count s' = frame_count s /\ fps s' = fps s /\
  start_time s' = start_time s /\ frame_counter s' = frame_counter s.
Proof.
  unfold handle_qr_data.
  destruct (is_new s p); [|simpl; tauto].
  destruct (save_to_csv f (csv_stamp e) p (csv_fault e)) as [f1 ev2].
  destruct (is_url p); [destruct (Qgtb _ _)|]; simpl; tauto.
Qed.

(** The browser thread starts exactly in the innermost branch. *)
Lemma dispatched_iff cfg s f p e :
  dispatched (handle_qr_data cfg s f p e) = true <->
  is_new s p = true /\ is_url p = true /\
  (open_interval cfg < now e - last_open_time s)%Q.
Proof.
  unfold dispatched, handle_qr_data.
  destruct (is_new s p); [|simpl; split; [discriminate | intros [? _]; discriminate]].
  pose proof (save_to_csv_events f (csv_stamp e) p (csv_fault e)) as Hcsv.
  destruct (save_to_csv f (csv_stamp e) p (csv_fault e)) as [f1 ev2].
  simpl in Hcsv.
  destruct (is_url p).
  - simpl last_open_time.
    destruct (Qgtb (now e - last_open_time s) (open_interval cfg)) eqn:G; simpl;
      rewrite existsb_app, Hcsv; simpl.
    + apply Qgtb_lt in G. tauto.
    + split; [discriminate | intros [_ [_ L]]].
      apply Qgtb_lt in L. congruence.
  - simpl. rewrite existsb_app, Hcsv. simpl.
    split; [discriminate | intros [_ [? _]]; discriminate].
Qed.

(** [last_open_time] after a call: the clock's value when the thread was
    launched, the old value otherwise. *)
Lemma handle_last_open_time cfg s f p e :
  let h := handle_qr_data cfg s f p e in
  last_open_time (h_node h) =
  if dispatched h then now e else last_open_time s.
Proof.
  unfold dispatched, handle_qr_data.
  destruct (is_new s p); [|reflexivity].
  pose proof (save_to_csv_events f (csv_stamp e) p (csv_fault e)) as Hcsv.
  destruct (save_to_csv f (csv_stamp e) p (csv_fault e)) as [f1 ev2].
  simpl in Hcsv.
  destruct (is_url p); [destruct (Qgtb _ _)|]; simpl;
    rewrite existsb_app, Hcsv; reflexivity.
Qed.

(** Line 157 in terms of the call it wraps. *)
Lemma accept_node cfg s f p e s' f' evs :
  accept cfg s f p e = (s', f', evs) ->
  let h := handle_qr_data cfg s f p e in
  s' = set_last_decoded_data (h_node h) (h_ret h) /\
  f' = h_csv h /\ evs = h_events h.
Proof. unfold accept. intro H. inversion H. auto. Qed.

Lemma accept_seen cfg s f p e :
  is_new s p = false -> accept cfg s f p e = (s, f, []).
Proof.
  intro H. unfold accept. rewrite (handle_seen _ _ _ _ _ H). simpl.
  destruct s; reflexivity.
Qed.

Lemma accept_decoded_data cfg s f p e s' f' evs :
  accept cfg s f p e = (s', f', evs) ->
  decoded_data s' =
  if is_new s p then decoded_data s ++ [p] else decoded_data s.
Proof.
  intro H. destruct (is_new s p) eqn:N.
  - apply accept_node in H. destruct H as [-> _]. simpl.
    apply (handle_new cfg s f p e N).
  - rewrite (accept_seen _ _ _ _ _ N) in H. now inversion H.
Qed.

Lemma accept_last_decoded_data cfg s f p e s' f' evs :
  accept cfg s f p e = (s', f', evs) ->
  last_decoded_data s' =
  if is_new s p then Some p else last_decoded_data s.
Proof.
  intro H. destruct (is_new s p) eqn:N.
  - apply accept_node in H. destruct H as [-> _]. simpl.
    apply (handle_new cfg s f p e N).
  - rewrite (accept_seen _ _ _ _ _ N) in H. now inversion H.
Qed.

(** [decoded_data] only grows. *)
Lemma accept_keeps_seen cfg s f p e s' f' evs q :
  accept cfg s f p e = (s', f', evs) ->
  In q (decoded_data s) -> In q (decoded_data s').
Proof.
  intros H Hq. rewrite (accept_decoded_data _ _ _ _ _ _ _ _ H).
  destruct (is_new s p); [apply in_or_app; now left | assumption].
Qed.

Lemma accept_all_keeps_seen cfg scans : forall s f q,
  In q (decoded_data s) ->
  In q (decoded_data (fst (accept_all cfg s f scans))).
Proof.
  induction scans as [|[p e] rest IH]; intros s f q Hq; [assumption|].
  cbn [accept_all].
  destruct (accept cfg s f p e) as [[s' f'] evs] eqn:A.
  apply IH. eapply accept_keeps_seen; eassumption.
Qed.

(** A payload already in [decoded_data] stays rejected through any
    further calls. *)
Lemma accepted_once_seen cfg s1 f1 p between e2 s2 f2 :
  In p (decoded_data s1) ->
  accept_all cfg s1 f1 between = (s2, f2) ->
  is_new s2 p = false /\ accept cfg s2 f2 p e2 = (s2, f2, []).
Proof.
  intros H1 B.
  pose proof (accept_all_keeps_seen cfg between s1 f1 p H1) as H2.
  rewrite B in H2. simpl in H2.
  pose proof (seen_is_not_new _ _ H2) as N2.
  split; [assumption | now apply accept_seen].
Qed.

(** ** Deduplication *)

(** C1: [handle_qr_data] treats a payload as new exactly when it differs
    from [last_decoded_data] and is not in [decoded_data].  A new payload
    is appended to [decoded_data], announced, and returned, so that it
    becomes [last_decoded_data] through the assignment of line 157; any
    other payload changes nothing, [last_decoded_data] included.  The
    method itself never assigns [last_decoded_data]. *)
Theorem handle_qr_data_classifies (cfg : Config) (s : Scanner) (f : CsvFile)
    (p : string) (e : HandleEnv) :
  (is_new s p = true <->
   last_decoded_data s <> Some p /\ ~ In p (decoded_data s)) /\
  (last_decoded_data s <> Some p /\ ~ In p (decoded_data s) ->
   exists s' f' tail,
     accept cfg s f p e = (s', f', LogDecoded (log_stamp e) p :: tail) /\
     h_ret (handle_qr_data cfg s f p e) = Some p /\
     decoded_data s' = decoded_data s ++ [p] /\
     last_decoded_data s' = Some p) /\
  (~ (last_decoded_data s <> Some p /\ ~ In p (decoded_data s)) ->
   accept cfg s f p e = (s, f, []) /\
   h_ret (handle_qr_data cfg s f p e) = last_decoded_data s) /\
  last_decoded_data (h_node (handle_qr_data cfg s f p e)) = last_decoded_data s.
Proof.
  split; [apply is_new_iff|]. split; [|split].
  3: { destruct (is_new s p) eqn:N.
       - apply (handle_new cfg s f p e N).
       - now rewrite (handle_seen _ _ _ _ _ N). }
  - intro H. apply is_new_iff in H.
    destruct (handle_new cfg s f p e H) as (Hd & _ & Hr & _ & final & Hev).
    destruct (accept cfg s f p e) as [[s' f'] evs] eqn:A.
    pose proof (accept_decoded_data _ _ _ _ _ _ _ _ A) as D.
    pose proof (accept_last_decoded_data _ _ _ _ _ _ _ _ A) as L.
    rewrite H in D, L.
    apply accept_node in A. destruct A as (_ & _ & ->).
    exists s', f', (snd (save_to_csv f (csv_stamp e) p (csv_fault e)) ++ [final]).
    rewrite Hev. auto.
  - intro H. assert (N : is_new s p = false).
    { destruct (is_new s p) eqn:N; [|reflexivity].
      apply is_new_iff in N. contradiction. }
    split; [now apply accept_seen|].
    now rewrite (handle_seen _ _ _ _ _ N).
Qed.

(** C2: once a payload has been accepted as new, no later call in the
    same run accepts it again, whatever payloads are handled in between
    and whichever of them becomes [last_decoded_data]. *)
Theorem accepted_at_most_once (cfg : Config) (s : Scanner) (f : CsvFile)
    (p : string) (e1 e2 : HandleEnv) (between : list Scan)
    (s1 s2 : Scanner) (f1 f2 : CsvFile) (ev1 : list Event) :
  is_new s p = true ->
  accept cfg s f p e1 = (s1, f1, ev1) ->
  accept_all cfg s1 f1 between = (s2, f2) ->
  is_new s2 p = false /\ accept cfg s2 f2 p e2 = (s2, f2, []).
Proof.
  intros N A B.
  assert (In p (decoded_data s1)) as H1.
  { rewrite (accept_decoded_data _ _ _ _ _ _ _ _ A), N.
    apply in_or_app. right. now left. }
  eapply accepted_once_seen; eassumption.
Qed.

Lemma accepted_at_most_once_witness :
  last_decoded_data
    (fst (accept_all default_config (init 0%Q) None
            [(sample_url, env_at 10%Q); (sample_text, env_at 11%Q)]))
  = Some sample_text /\
  is_new
    (fst (accept_all default_config (init 0%Q) None
            [(sample_url, env_at 10%Q); (sample_text, env_at 11%Q)]))
    sample_url = false.
Proof.
  split; [reflexivity|].
  eapply (accepted_at_most_once default_config (init 0%Q) None sample_url
            (env_at 10%Q) (env_at 12%Q) [(sample_text, env_at 11%Q)]);
    reflexivity.
Defined.

(** ** What one timer callback does to the deduplication state *)

Section DedupInvariant.

Variable cfg : Config.

(** A property of the pair ([last_decoded_data], [decoded_data]) that
    line 157 preserves. *)
Variable P : option string -> list string -> Prop.

Hypothesis P_accept : forall s f p e s' f' evs,
  P (last_decoded_data s) (decoded_data s) ->
  accept cfg s f p e = (s', f', evs) ->
  P (last_decoded_data s') (decoded_data s').

Lemma scan_region_keeps s f evs r s' f' evs' :
  P (last_decoded_data s) (decoded_data s) ->
  scan_region cfg (s, f, evs) r = (s', f', evs') ->
  P (last_decoded_data s') (decoded_data s').
Proof.
  intros H. unfold scan_region.
  destruct (r_data r) as [p| |].
  - destruct (accept cfg s f p (r_env r)) as [[s1 f1] ev1] eqn:A.
    intro E. inversion E; subst. eapply P_accept; eassumption.
  - intro E. inversion E; subst. assumption.
  - intro E. inversion E; subst. assumption.
Qed.

Lemma scan_regions_keep regions : forall s f evs s' f' evs',
  P (last_decoded_data s) (decoded_data s) ->
  fold_left (scan_region cfg) regions (s, f, evs) = (s', f', evs') ->
  P (last_decoded_data s') (decoded_data s').
Proof.
  induction regions as [|r rest IH]; intros s f evs s' f' evs' H E.
  - inversion E; subst. assumption.
  - cbn [fold_left] in E.
    destruct (scan_region cfg (s, f, evs) r) as [[s1 f1] ev1] eqn:R.
    eapply IH; [|exact E]. eapply scan_region_keeps; eassumption.
Qed.

Lemma process_frame_keeps s f t k :
  P (last_decoded_data s) (decoded_data s) ->
  process_frame cfg s f t = inr k ->
  P (last_decoded_data (k_node k)) (decoded_data (k_node k)).
Proof.
  intros H. unfold process_frame.
  destruct (skip_frames cfg + 1 =? 0)%Z; [discriminate|].
  destruct (negb _).
  - intro E. inversion E; subst. exact H.
  - destruct (t_read t) as [regions|].
    + destruct (fold_left _ _ _) as [[s3 f3] evs] eqn:F.
      intro E. inversion E; subst. cbn [k_node].
      eapply scan_regions_keep; [|exact F].
      unfold update_fps. destruct (Qle_bool _ _); exact H.
    + intro E. inversion E; subst. exact H.
Qed.

Lemma reachable_keeps :
  P None [] ->
  forall s, reachable cfg s -> P (last_decoded_data s) (decoded_data s).
Proof.
  intros H0 s R. induction R as [t0|s f p e s' f' evs R IH A|s f t k R IH T].
  - exact H0.
  - eapply P_accept; eassumption.
  - eapply process_frame_keeps; eassumption.
Qed.

End DedupInvariant.

Lemma NoDup_snoc (l : list string) (x : string) :
  NoDup l -> ~ In x l -> NoDup (l ++ [x]).
Proof.
  induction 1 as [|y l Hy Hl IH]; intro Hx; simpl.
  - constructor; [intros [] | constructor].
  - constructor.
    + intro H. apply in_app_or in H. destruct H as [H|[H|[]]].
      * contradiction.
      * subst. apply Hx. now left.
    + apply IH. intro H. apply Hx. now right.
Qed.

(** Handling a sequence of payloads stays within the reachable states. *)
Lemma reachable_accept_all cfg scans : forall s f,
  reachable cfg s -> reachable cfg (fst (accept_all cfg s f scans)).
Proof.
  induction scans as [|[p e] rest IH]; intros s f R; [exact R|].
  cbn [accept_all].
  destruct (accept cfg s f p e) as [[s' f'] evs] eqn:A.
  apply IH. eapply reach_accept; eassumption.
Qed.

(** C8: in every state a node reaches from [__init__], by handled
    payloads or by whole ticks, [last_decoded_data] is either [None] or
    an entry of [decoded_data]. *)
Theorem last_decoded_data_is_seen (cfg : Config) (s : Scanner) (p : string) :
  reachable cfg s ->
  last_decoded_data s = Some p -> In p (decoded_data s).
Proof.
  intro R. revert p.
  apply (reachable_keeps cfg
           (fun last seen => forall p, last = Some p -> In p seen));
    [|discriminate|exact R].
  clear s R. intros s f q e s' f' evs H A p.
  rewrite (accept_last_decoded_data _ _ _ _ _ _ _ _ A),
          (accept_decoded_data _ _ _ _ _ _ _ _ A).
  destruct (is_new s q).
  - intro E. inversion E; subst. apply in_or_app. right. now left.
  - apply H.
Qed.

Lemma last_decoded_data_is_seen_witness :
  last_decoded_data (fst (accept_all default_config (init 0%Q) None
                            [(sample_url, env_at 10%Q)])) = Some sample_url /\
  In sample_url
     (decoded_data (fst (accept_all default_config (init 0%Q) None
                           [(sample_url, env_at 10%Q)]))).
Proof.
  split; [reflexivity|].
  apply (last_decoded_data_is_seen default_config _ sample_url);
    [|reflexivity].
  apply reachable_accept_all, reach_init.
Defined.

(** C9: in every reachable state the list [decoded_data] has no repeated
    entry: a payload is appended only when [in] has just said it is not
    there, and nothing is ever removed. *)
Theorem decoded_data_NoDup (cfg : Config) (s : Scanner) :
  reachable cfg s -> NoDup (decoded_data s).
Proof.
  intro R.
  apply (reachable_keeps cfg (fun _ seen => NoDup seen));
    [|constructor|exact R].
  clear s R. intros s f q e s' f' evs H A.
  rewrite (accept_decoded_data _ _ _ _ _ _ _ _ A).
  destruct (is_new s q) eqn:N; [|exact H].
  apply NoDup_snoc; [exact H|]. now apply is_new_iff in N.
Qed.

Lemma decoded_data_NoDup_witness :
  decoded_data (fst (accept_all default_config (init 0%Q) None
     [(sample_url, env_at 10%Q); (sample_text, env_at 11%Q);
      (sample_url, env_at 12%Q)])) = [sample_url; sample_text] /\
  NoDup (decoded_data (fst (accept_all default_config (init 0%Q) None
     [(sample_url, env_at 10%Q); (sample_text, env_at 11%Q);
      (sample_url, env_at 12%Q)]))).
Proof.
  split; [reflexivity|].
  apply (decoded_data_NoDup default_config).
  apply reachable_accept_all, reach_init.
Defined.

(** ** Persistence failures *)

Lemma csv_fault_raises (f : CsvFile) (stamp data : string) (fault : CsvFault) :
  fault <> CsvFine ->
  snd (csv_try f stamp data fault) = inl OSError /\
  snd (save_to_csv f stamp data fault) = [LogCsvFailed] /\
  rows_of (fst (save_to_csv f stamp data fault)) = rows_of f.
Proof.
  destruct fault; [congruence| |]; intros _; destruct f; repeat split.
Qed.

(** C7: when the CSV append of a new payload fails, the error is caught
    inside [save_to_csv] and logged; [handle_qr_data] returns normally
    with the payload recorded in [decoded_data], no row reaches the file,
    and the payload is never accepted as new again. *)
Theorem csv_failure_keeps_payload_seen (cfg : Config) (s : Scanner)
    (f : CsvFile) (p : string) (e : HandleEnv)
    (s1 : Scanner) (f1 : CsvFile) (ev1 : list Event) :
  is_new s p = true ->
  csv_fault e <> CsvFine ->
  accept cfg s f p e = (s1, f1, ev1) ->
  snd (csv_try f (csv_stamp e) p (csv_fault e)) = inl OSError /\
  In LogCsvFailed ev1 /\
  h_ret (handle_qr_data cfg s f p e) = Some p /\
  rows_of f1 = rows_of f /\
  In p (decoded_data s1) /\
  last_decoded_data s1 = Some p /\
  forall between e2 s2 f2,
    accept_all cfg s1 f1 between = (s2, f2) ->
    is_new s2 p = false /\ accept cfg s2 f2 p e2 = (s2, f2, []).
Proof.
  intros N Hfault A.
  destruct (csv_fault_raises f (csv_stamp e) p (csv_fault e) Hfault)
    as (Hraise & Hlog & Hrows).
  destruct (handle_new cfg s f p e N) as (_ & _ & Hr & Hcsv & final & Hev).
  pose proof (accept_decoded_data _ _ _ _ _ _ _ _ A) as D.
  pose proof (accept_last_decoded_data _ _ _ _ _ _ _ _ A) as L.
  rewrite N in D, L.
  pose proof A as A'. apply accept_node in A'. destruct A' as (_ & -> & ->).
  assert (In p (decoded_data s1)) as Hseen.
  { rewrite D. apply in_or_app. right. now left. }
  split; [exact Hraise|].
  split; [rewrite Hev, Hlog; right; now left|].
  split; [exact Hr|].
  split; [now rewrite Hcsv|].
  split; [exact Hseen|].
  split; [exact L|].
  intros between e2 s2 f2 B. eapply accepted_once_seen; eassumption.
Qed.

Lemma csv_failure_keeps_payload_seen_witness :
  accept default_config (init 0%Q) None sample_text (env_disk_down 10%Q)
  = (set_last_decoded_data (set_decoded_data (init 0%Q) [sample_text])
       (Some sample_text),
     None,
     [LogDecoded "2024-05-01 10:00:00" sample_text; LogCsvFailed; LogNotUrl]) /\
  is_new (set_last_decoded_data (set_decoded_data (init 0%Q) [sample_text])
            (Some sample_text)) sample_text = false.
Proof.
  split; [reflexivity|].
  eapply (csv_failure_keeps_payload_seen default_config (init 0%Q) None
            sample_text (env_disk_down 10%Q))
    with (between := []) (e2 := env_at 11%Q);
    [reflexivity | discriminate | reflexivity | reflexivity].
Defined.

(** ** The rate limit on the browser *)

(** C10: a call of [handle_qr_data] changes [last_open_time] only by
    launching the browser thread: the field keeps its value when the
    payload is not new, when it is new but not a URL, and when it is a new
    URL inside the interval; line 157 does not touch it either. *)
Theorem last_open_time_moves_only_on_dispatch (cfg : Config) (s : Scanner)
    (f : CsvFile) (p : string) (e : HandleEnv) :
  (is_new s p = false \/ is_url p = false \/
   ~ (open_interval cfg < now e - last_open_time s)%Q ->
   dispatched (handle_qr_data cfg s f p e) = false) /\
  (dispatched (handle_qr_data cfg s f p e) = false ->
   last_open_time (h_node (handle_qr_data cfg s f p e)) = last_open_time s) /\
  (dispatched (handle_qr_data cfg s f p e) = true ->
   last_open_time (h_node (handle_qr_data cfg s f p e)) = now e) /\
  (forall s' f' evs, accept cfg s f p e = (s', f', evs) ->
   last_open_time s' = last_open_time (h_node (handle_qr_data cfg s f p e))).
Proof.
  pose proof (handle_last_open_time cfg s f p e) as L. cbv zeta in L.
  pose proof (dispatched_iff cfg s f p e) as D.
  repeat split.
  - intro H. destruct (dispatched _); [|reflexivity].
    destruct D as [D _]. destruct (D eq_refl) as (N & U & I).
    destruct H as [H|[H|H]]; [congruence | congruence | contradiction].
  - intro H. now rewrite H in L.
  - intro H. now rewrite H in L.
  - intros s' f' evs A. apply accept_node in A. destruct A as [-> _].
    reflexivity.
Qed.

(** The events of a call that handles a new URL. *)
Lemma handle_new_url_events cfg s f p e :
  is_new s p = true -> is_url p = true ->
  h_events (handle_qr_data cfg s f p e) =
  LogDecoded (log_stamp e) p
    :: snd (save_to_csv f (csv_stamp e) p (csv_fault e))
    ++ [if Qgtb (now e - last_open_time s) (open_interval cfg)
        then BrowserThread p else LogTooFrequent].
Proof.
  intros N U. unfold handle_qr_data. rewrite N, U.
  destruct (save_to_csv f (csv_stamp e) p (csv_fault e)) as [f1 ev2].
  simpl last_open_time. destruct (Qgtb _ _); reflexivity.
Qed.

Lemma accept_last_open_time cfg s f p e s' f' evs :
  accept cfg s f p e = (s', f', evs) ->
  last_open_time s' =
  if dispatched (handle_qr_data cfg s f p e) then now e else last_open_time s.
Proof.
  intro A. apply accept_node in A. destruct A as [-> _].
  apply handle_last_open_time.
Qed.

(** Every launch of a run comes more than [open_interval] after the
    [last_open_time] the run started with. *)
Lemma dispatch_times_later cfg :
  (0 <= open_interval cfg)%Q ->
  forall scans s f d,
    In d (dispatch_times cfg s f scans) ->
    (last_open_time s + open_interval cfg < d)%Q.
Proof.
  intro I. induction scans as [|[p e] rest IH]; intros s f d Hd; [destruct Hd|].
  cbn [dispatch_times] in Hd.
  destruct (accept cfg s f p e) as [[s' f'] evs] eqn:A.
  pose proof (accept_last_open_time _ _ _ _ _ _ _ _ A) as L.
  destruct (dispatched (handle_qr_data cfg s f p e)) eqn:D.
  - apply dispatched_iff in D. destruct D as (_ & _ & D).
    destruct Hd as [<-|Hd]; [lra|].
    apply IH in Hd. rewrite L in Hd. lra.
  - simpl in Hd. apply IH in Hd. now rewrite L in Hd.
Qed.

Lemma count_within_none (t1 t2 : Q) (l : list Q) :
  (forall d, In d l -> (t2 < d)%Q) -> count_within t1 t2 l = 0%nat.
Proof.
  unfold count_within. induction l as [|d l IH]; intro H; [reflexivity|].
  simpl. assert (Qle_bool d t2 = false) as E.
  { destruct (Qle_bool d t2) eqn:E; [|reflexivity].
    apply Qle_bool_iff in E. specialize (H d (or_introl eq_refl)). lra. }
  rewrite E, andb_false_r. apply IH. intros d' Hd'. apply H. now right.
Qed.

Lemma count_within_cons (t1 t2 d : Q) (l : list Q) :
  count_within t1 t2 (d :: l) =
  ((if Qle_bool t1 d && Qle_bool d t2 then 1 else 0) + count_within t1 t2 l)%nat.
Proof.
  unfold count_within. simpl. destruct (Qle_bool t1 d && Qle_bool d t2); reflexivity.
Qed.

(** A window no longer than [open_interval] holds at most one launch. *)
Lemma one_dispatch_per_window cfg (t1 t2 : Q) :
  (t1 < t2)%Q -> (t2 - t1 <= open_interval cfg)%Q ->
  forall scans s f,
    (count_within t1 t2 (dispatch_times cfg s f scans) <= 1)%nat.
Proof.
  intros Ht Hw. assert (0 <= open_interval cfg)%Q as I by lra.
  induction scans as [|[p e] rest IH]; intros s f.
  - unfold count_within. simpl. lia.
  - cbn [dispatch_times].
    destruct (accept cfg s f p e) as [[s' f'] evs] eqn:A.
    pose proof (accept_last_open_time _ _ _ _ _ _ _ _ A) as L.
    destruct (dispatched (handle_qr_data cfg s f p e)) eqn:D; [|apply IH].
    cbn [app]. rewrite count_within_cons.
    destruct (Qle_bool t1 (now e) && Qle_bool (now e) t2) eqn:W; [|apply IH].
    apply andb_true_iff in W. destruct W as [W1 W2].
    apply Qle_bool_iff in W1.
    rewrite count_within_none; [lia|].
    intros d Hd. apply (dispatch_times_later cfg I) in Hd.
    rewrite L in Hd. lra.
Qed.

(** C3: for a new URL handled at the instant [now e], the browser thread
    is launched exactly when [now e - last_open_time] exceeds
    [open_interval]; a launch sets [last_open_time] to that instant, a
    suppressed one logs and leaves it alone.  Consequently, over any run
    and from any state (so also after a launch at or before [t1]), a
    window from [t1] to [t2] no longer than [open_interval] contains at
    most one launch. *)
Theorem dispatch_is_rate_limited (cfg : Config) (s : Scanner) (f : CsvFile)
    (p : string) (e : HandleEnv) :
  is_new s p = true ->
  is_url p = true ->
  (dispatched (handle_qr_data cfg s f p e) = true <->
   (open_interval cfg < now e - last_open_time s)%Q) /\
  (dispatched (handle_qr_data cfg s f p e) = true ->
   In (BrowserThread p) (h_events (handle_qr_data cfg s f p e)) /\
   last_open_time (h_node (handle_qr_data cfg s f p e)) = now e) /\
  (dispatched (handle_qr_data cfg s f p e) = false ->
   In LogTooFrequent (h_events (handle_qr_data cfg s f p e)) /\
   last_open_time (h_node (handle_qr_data cfg s f p e)) = last_open_time s) /\
  (forall (t1 t2 : Q) (scans : list Scan) (s0 : Scanner) (f0 : CsvFile),
     (t1 < t2)%Q -> (t2 - t1 <= open_interval cfg)%Q ->
     (count_within t1 t2 (dispatch_times cfg s0 f0 scans) <= 1)%nat).
Proof.
  intros N U.
  pose proof (dispatched_iff cfg s f p e) as D.
  pose proof (handle_last_open_time cfg s f p e) as L. cbv zeta in L.
  pose proof (handle_new_url_events cfg s f p e N U) as Ev.
  split; [rewrite D; tauto|]. split; [|split].
  - intro H. rewrite H in L. split; [|exact L].
    destruct D as [D _]. destruct (D H) as (_ & _ & G).
    apply Qgtb_lt in G. rewrite G in Ev. rewrite Ev.
    right. apply in_or_app. right. now left.
  - intro H. rewrite H in L. split; [|exact L].
    destruct (Qgtb (now e - last_open_time s) (open_interval cfg)) eqn:G.
    + apply Qgtb_lt in G. destruct D as [_ D].
      rewrite D in H by auto. discriminate.
    + rewrite Ev. right. apply in_or_app. right. now left.
  - intros t1 t2 scans s0 f0 Ht Hw. now apply one_dispatch_per_window.
Qed.

Lemma dispatch_is_rate_limited_witness :
  dispatched (handle_qr_data default_config (init 0%Q) None sample_url
                (env_at 10%Q)) = true /\
  dispatch_times default_config (init 0%Q) None
    [(sample_url, env_at 10%Q); (other_url, env_at 12%Q);
     (sample_text, env_at 13%Q)] = [10%Q] /\
  (count_within 10 15
     (dispatch_times default_config (init 0%Q) None
        [(sample_url, env_at 10%Q); (other_url, env_at 12%Q);
         (sample_text, env_at 13%Q)]) <= 1)%nat.
Proof.
  pose proof (dispatch_is_rate_limited default_config (init 0%Q) None
                sample_url (env_at 10%Q) eq_refl eq_refl) as (D & _ & _ & W).
  split; [apply D; reflexivity|].
  split; [reflexivity|].
  apply W; [reflexivity | discriminate].
Defined.

(** ** The frame throttle *)

(** The loop over the regions of a frame leaves the throttle alone. *)
Lemma scan_regions_frame_counter cfg regions : forall s f evs s' f' evs',
  fold_left (scan_region cfg) regions (s, f, evs) = (s', f', evs') ->
  frame_counter s' = frame_counter s.
Proof.
  induction regions as [|r rest IH]; intros s f evs s' f' evs' E.
  - now inversion E.
  - cbn [fold_left] in E.
    destruct (scan_region cfg (s, f, evs) r) as [[s1 f1] ev1] eqn:R.
    rewrite (IH _ _ _ _ _ _ E). unfold scan_region in R.
    destruct (r_data r) as [p| |]; try (now inversion R).
    destruct (accept cfg s f p (r_env r)) as [[s2 f2] ev2] eqn:A.
    inversion R; subst. apply accept_node in A. destruct A as [-> _].
    simpl. apply handle_frame.
Qed.

(** Lines 126-128, whatever the tick brings. *)
Lemma process_frame_throttle cfg s f t :
  (skip_frames cfg + 1 <> 0)%Z ->
  exists k,
    process_frame cfg s f t = inr k /\
    frame_counter (k_node k)
    = ((frame_counter s + 1) mod (skip_frames cfg + 1))%Z /\
    (passed (k_outcome k) = true <-> frame_counter (k_node k) = 0%Z).
Proof.
  intro M. unfold process_frame.
  apply Z.eqb_neq in M. rewrite M. cbn [frame_counter set_frame_counter].
  destruct (((frame_counter s + 1) mod (skip_frames cfg + 1)) =? 0)%Z eqn:C;
    cbn [negb].
  - apply Z.eqb_eq in C. destruct (t_read t) as [regions|].
    + destruct (fold_left _ _ _) as [[s3 f3] evs] eqn:F.
      apply scan_regions_frame_counter in F.
      eexists. split; [reflexivity|]. cbn [k_node k_outcome passed].
      rewrite F. unfold update_fps. destruct (Qle_bool _ _); simpl; tauto.
    + eexists. split; [reflexivity|]. simpl. tauto.
  - apply Z.eqb_neq in C. eexists. split; [reflexivity|]. simpl.
    split; [reflexivity|]. split; [discriminate | contradiction].
Qed.

Lemma count_passed_cons (o : Outcome) (os : list Outcome) :
  count_passed (o :: os) = ((if passed o then 1 else 0) + count_passed os)%Z.
Proof.
  unfold count_passed. cbn [filter]. destruct (passed o); cbn [List.length]; lia.
Qed.

(** The counter wraps to 0 exactly when the quotient by the modulus steps. *)
Lemma wrap_is_quotient_step (m c : Z) :
  (0 < m)%Z ->
  ((if ((c + 1) mod m =? 0)%Z then 1 else 0) = (c + 1) / m - c / m)%Z.
Proof.
  intro M.
  pose proof (Z.div_mod c m ltac:(lia)) as E1.
  pose proof (Z.mod_pos_bound c m M) as B1.
  pose proof (Z.div_mod (c + 1) m ltac:(lia)) as E2.
  pose proof (Z.mod_pos_bound (c + 1) m M) as B2.
  destruct ((c + 1) mod m =? 0)%Z eqn:C.
  - apply Z.eqb_eq in C. nia.
  - apply Z.eqb_neq in C. nia.
Qed.

(** Over any run the ticks that pass are counted by the quotient. *)
Lemma run_ticks_count cfg :
  (0 < skip_frames cfg + 1)%Z ->
  forall ticks s f, exists os s' f',
    run_ticks cfg s f ticks = inr (os, s', f') /\
    count_passed os
    = ((frame_counter s + Z.of_nat (List.length ticks)) / (skip_frames cfg + 1)
       - frame_counter s / (skip_frames cfg + 1))%Z.
Proof.
  intro M. set (m := (skip_frames cfg + 1)%Z) in *.
  induction ticks as [|t rest IH]; intros s f.
  - exists [], s, f. split; [reflexivity|].
    simpl. rewrite Z.add_0_r. unfold count_passed. simpl. lia.
  - destruct (process_frame_throttle cfg s f t ltac:(fold m; lia))
      as (k & Hk & Hc & Hp).
    fold m in Hc.
    destruct (IH (k_node k) (k_csv k)) as (os & s' & f' & Hr & Hn).
    exists (k_outcome k :: os), s', f'.
    cbn [run_ticks]. rewrite Hk, Hr. split; [reflexivity|].
    rewrite count_passed_cons, Hn, Hc.
    assert ((if passed (k_outcome k) then 1 else 0)
            = (if ((frame_counter s + 1) mod m =? 0) then 1 else 0))%Z as ->.
    { rewrite Hc in Hp. destruct (passed (k_outcome k)).
      - destruct Hp as [Hp _]. rewrite (Hp eq_refl). reflexivity.
      - destruct ((frame_counter s + 1) mod m =? 0)%Z eqn:C; [|reflexivity].
        apply Z.eqb_eq in C. destruct Hp as [_ Hp]. now apply Hp in C. }
    rewrite (wrap_is_quotient_step m (frame_counter s) M).
    pose proof (Z.mod_pos_bound (frame_counter s + 1) m M) as B.
    rewrite (Z.div_small ((frame_counter s + 1) mod m) m B).
    replace (frame_counter s + Z.of_nat (List.length (t :: rest)))%Z
      with ((frame_counter s + 1) / m * m
            + ((frame_counter s + 1) mod m + Z.of_nat (List.length rest)))%Z.
    + rewrite Z.div_add_l by lia. lia.
    + pose proof (Z.div_mod (frame_counter s + 1) m ltac:(lia)).
      cbn [List.length]. lia.
Qed.

(** C4: with [skip_frames = n >= 0], every tick sets [frame_counter] to
    its successor modulo [n + 1] and gets past the throttle exactly when
    that is 0, whatever the clock, the camera and the decoder supply.  So
    any [q * (n + 1)] consecutive ticks, from any state, contain exactly
    [q] that pass, one in any [n + 1]; and with [n = 0] every tick
    passes. *)
Theorem throttle_passes_one_in_n_plus_1 (cfg : Config) :
  (0 <= skip_frames cfg)%Z ->
  (forall s f t, exists k,
     process_frame cfg s f t = inr k /\
     frame_counter (k_node k)
     = ((frame_counter s + 1) mod (skip_frames cfg + 1))%Z /\
     (passed (k_outcome k) = true <-> frame_counter (k_node k) = 0%Z)) /\
  (forall s f ticks,
     Z.of_nat (List.length ticks) = (skip_frames cfg + 1)%Z ->
     exists os s' f',
       run_ticks cfg s f ticks = inr (os, s', f') /\ count_passed os = 1%Z) /\
  (forall s f ticks q,
     Z.of_nat (List.length ticks) = (q * (skip_frames cfg + 1))%Z ->
     exists os s' f',
       run_ticks cfg s f ticks = inr (os, s', f') /\ count_passed os = q) /\
  (skip_frames cfg = 0%Z ->
   forall s f t, exists k,
     process_frame cfg s f t = inr k /\ passed (k_outcome k) = true).
Proof.
  intro N. assert (0 < skip_frames cfg + 1)%Z as M by lia.
  split; [intros s f t; apply process_frame_throttle; lia|].
  assert (forall s f ticks q,
     Z.of_nat (List.length ticks) = (q * (skip_frames cfg + 1))%Z ->
     exists os s' f',
       run_ticks cfg s f ticks = inr (os, s', f') /\ count_passed os = q) as G.
  { intros s f ticks q L.
    destruct (run_ticks_count cfg M ticks s f) as (os & s' & f' & Hr & Hn).
    exists os, s', f'. split; [exact Hr|].
    rewrite Hn, L, Z.div_add by lia. lia. }
  split; [|split; [exact G|]].
  - intros s f ticks L. apply (G s f ticks 1%Z). lia.
  - intros Z0 s f t.
    destruct (process_frame_throttle cfg s f t ltac:(lia)) as (k & Hk & Hc & Hp).
    exists k. split; [exact Hk|]. apply Hp. rewrite Hc, Z0.
    apply Z.mod_1_r.
Qed.

Lemma throttle_passes_one_in_n_plus_1_witness :
  run_ticks default_config (init 0%Q) None [blind_tick; blind_tick; blind_tick]
  = inr ([Skipped; Skipped; ReadFailed], init 0%Q, None) /\
  exists os s' f',
    run_ticks default_config two_ticks_in None
      [blind_tick; blind_tick; blind_tick] = inr (os, s', f') /\
    count_passed os = 1%Z.
Proof.
  split; [reflexivity|].
  apply (throttle_passes_one_in_n_plus_1 default_config);
    [discriminate | reflexivity].
Defined.

(** ** A tick on which the camera fails *)

(** C5, as the code has it: a tick that gets past the throttle and then
    fails to read a frame logs the error and returns; every field of the
    node but [frame_counter] has the value it had at the start of the
    tick and the CSV file is untouched.  [frame_counter] is 0 afterwards,
    the throttle having wrapped it on line 126: that is its value at the
    start of the tick only if it was 0 already. *)
Theorem read_failure_only_advances_throttle (cfg : Config) (s : Scanner)
    (f : CsvFile) (t : Tick) (k : Ticked) :
  t_read t = None ->
  process_frame cfg s f t = inr k ->
  k_outcome k <> Skipped ->
  k_outcome k = ReadFailed /\
  k_events k = [LogReadFailed] /\
  k_csv k = f /\
  k_node k = set_frame_counter s 0%Z /\
  ((frame_counter s + 1) mod (skip_frames cfg + 1) = 0)%Z /\
  frame_counter (k_node k) = 0%Z /\
  (frame_counter (k_node k) = frame_counter s <-> frame_counter s = 0%Z) /\
  last_decoded_data (k_node k) = last_decoded_data s /\
  decoded_data (k_node k) = decoded_data s /\
  last_open_time (k_node k) = last_open_time s /\
  frame_count (k_node k) = frame_count s /\
  start_time (k_node k) = start_time s /\
  fps (k_node k) = fps s.
Proof.
  intros R. unfold process_frame.
  destruct (skip_frames cfg + 1 =? 0)%Z; [discriminate|].
  cbn [frame_counter set_frame_counter].
  destruct ((frame_counter s + 1) mod (skip_frames cfg + 1) =? 0)%Z eqn:C;
    cbn [negb]; rewrite ?R; intros E NS; inversion E; subst k;
    cbn [k_outcome] in NS; [|contradiction].
  apply Z.eqb_eq in C. rewrite C. simpl. repeat split; congruence.
Qed.

Lemma read_failure_only_advances_throttle_witness :
  process_frame default_config two_ticks_in None blind_tick
  = inr (mkTicked ReadFailed (init 0%Q) None [LogReadFailed]) /\
  init 0%Q = set_frame_counter two_ticks_in 0%Z /\
  decoded_data (init 0%Q) = decoded_data two_ticks_in.
Proof.
  split; [reflexivity|].
  pose proof (read_failure_only_advances_throttle default_config two_ticks_in
                None blind_tick
                (mkTicked ReadFailed (init 0%Q) None [LogReadFailed])
                eq_refl eq_refl ltac:(discriminate))
    as (_ & _ & _ & Hn & _ & _ & _ & _ & Hd & _).
  split; [exact Hn | exact Hd].
Defined.

(** C5 does not hold for [frame_counter]: under the default
    [skip_frames = 2], the third tick after [__init__] passes the
    throttle; when its read fails, [frame_counter] has gone from 2 at the
    start of the tick to 0. *)
Lemma read_failure_moves_frame_counter :
  reachable default_config two_ticks_in /\
  process_frame default_config two_ticks_in None blind_tick
  = inr (mkTicked ReadFailed (init 0%Q) None [LogReadFailed]) /\
  frame_counter two_ticks_in = 2%Z /\
  frame_counter (init 0%Q) = 0%Z /\
  frame_counter (init 0%Q) <> frame_counter two_ticks_in.
Proof.
  split.
  - exact (reach_tick default_config (set_frame_counter (init 0%Q) 1%Z) None
             blind_tick (mkTicked Skipped two_ticks_in None [])
             (reach_tick default_config (init 0%Q) None blind_tick
                (mkTicked Skipped (set_frame_counter (init 0%Q) 1%Z) None [])
                (reach_init default_config 0%Q) eq_refl)
             eq_refl).
  - repeat split. discriminate.
Qed.

(** ** The history file *)

Lemma append_all_present records : forall rows,
  append_all (Some rows) records = Some (rows ++ map record_row records).
Proof.
  unfold append_all.
  induction records as [|r rest IH]; intro rows; simpl.
  - now rewrite app_nil_r.
  - rewrite IH. unfold record_row at 2. now rewrite <- app_assoc.
Qed.

(** C6, as the code has it: an append that does not fail adds exactly one
    data row (timestamp, content) after the rows already in the file, and
    puts the header row before it exactly when the file is absent at that
    moment.  Hence a run of such appends that starts without the file
    writes the header once, in its first append; [handle_qr_data] appends
    once for each payload it accepts and not otherwise. *)
Theorem header_written_when_file_absent :
  (forall stamp data,
     save_to_csv None stamp data CsvFine
     = (Some [csv_header; [stamp; data]], [])) /\
  (forall rows stamp data,
     save_to_csv (Some rows) stamp data CsvFine
     = (Some (rows ++ [[stamp; data]]), [])) /\
  (forall r records,
     append_all None (r :: records)
     = Some (csv_header :: map record_row (r :: records))) /\
  (forall rows records,
     append_all (Some rows) records = Some (rows ++ map record_row records)) /\
  (forall cfg s f p e,
     h_csv (handle_qr_data cfg s f p e)
     = if is_new s p
       then fst (save_to_csv f (csv_stamp e) p (csv_fault e))
       else f).
Proof.
  split; [reflexivity|]. split; [reflexivity|].
  split; [|split; [intros; apply append_all_present|]].
  - intros r records. unfold append_all. cbn [fold_left].
    change (fst (save_to_csv None (fst r) (snd r) CsvFine))
      with (Some [csv_header; record_row r]).
    apply (append_all_present records [csv_header; record_row r]).
  - intros cfg s f p e. destruct (is_new s p) eqn:N.
    + apply (handle_new cfg s f p e N).
    + now rewrite (handle_seen _ _ _ _ _ N).
Qed.

(** C6 does not hold for the first append of a process as such: when the
    file is there already, left by an earlier process or created empty,
    that append writes its data row and no header. *)
Lemma first_append_without_header :
  h_csv (handle_qr_data default_config (init 0%Q) old_history sample_url
           (env_at 10%Q))
  = Some [csv_header; ["2024-04-30 09:00:00"; sample_text];
          ["2024-05-01 10:00:00"; sample_url]] /\
  h_csv (handle_qr_data default_config (init 0%Q) (Some []) sample_url
           (env_at 10%Q))
  = Some [["2024-05-01 10:00:00"; sample_url]].
Proof. split; reflexivity. Qed.

(** ** The model at work on whole ticks *)

(** With [skip_frames = 0], a frame showing a URL and an undecodable region:
    the bad region is logged and skipped, the URL is recorded, persisted
    with the header (the file was absent) and opened. *)
Example tick_with_one_bad_region :
  process_frame (mkConfig false 0%Z "~/qrcode_scans" 5%Q) (init 0%Q) None
    (mkTick (Some [mkRegion UnicodeDecodeError (env_at 10%Q);
                   mkRegion (Text sample_url) (env_at 10%Q)])
            (1 # 2) (1 # 2))
  = inr (mkTicked Processed
           (mkScanner (Some sample_url) 10%Q 1%Z 0%Z 0%Q [sample_url] 0%Z)
           (Some [csv_header; ["2024-05-01 10:00:00"; sample_url]])
           [LogDecodeWarning;
            LogDecoded "2024-05-01 10:00:00" sample_url;
            BrowserThread sample_url]).
Proof. reflexivity. Qed.

(** A second URL two seconds after a launch is recorded but not opened;
    the first one, shown again, is ignored altogether. *)
Example second_url_too_soon :
  accept_all default_config (init 0%Q) None
    [(sample_url, env_at 10%Q); (other_url, env_at 12%Q);
     (sample_url, env_at 20%Q)]
  = (mkScanner (Some other_url) 10%Q 0%Z 0%Z 0%Q [sample_url; other_url] 0%Z,
     Some [csv_header; ["2024-05-01 10:00:00"; sample_url];
           ["2024-05-01 10:00:00"; other_url]]).
Proof. reflexivity. Qed.

(** [skip_frames = -1] makes the modulus zero: the callback raises. *)
Example zero_modulus_raises :
  process_frame (mkConfig false (-1)%Z "~/qrcode_scans" 5%Q) (init 0%Q) None
    blind_tick = inl ZeroDivisionError.
Proof. reflexivity. Qed.

(** * Beyond the pipeline claims *)

(** ** [is_url] *)

Lemma prefix_append (p s : string) :
  String.prefix p s = true <->
  exists rest, s = String.append p rest.
Proof.
  revert s. induction p as [|c p IH]; intro s.
  - simpl. split; [intros _; now exists s | now destruct s].
  - destruct s as [|d s]; simpl.
    + split; [discriminate | intros [rest H]; discriminate].
    + destruct (Ascii.ascii_dec c d) as [->|N].
      * rewrite IH. split; intros [rest H]; exists rest; congruence.
      * split; [discriminate | intros [rest H]; congruence].
Qed.

(** X1: [is_url] accepts exactly the texts that begin with [http://] or
    [https://], whatever follows, nothing included. *)
Theorem is_url_iff_scheme (s : string) :
  is_url s = true <->
  exists rest,
    s = String.append "http://" rest \/ s = String.append "https://" rest.
Proof.
  unfold is_url. rewrite orb_true_iff, !prefix_append. split.
  - intros [[rest H]|[rest H]]; exists rest; auto.
  - intros [rest [H|H]]; [left | right]; now exists rest.
Qed.

(** ** [draw_qr_info] *)

Lemma length_append (a b : string) :
  String.length (String.append a b) = (String.length a + String.length b)%nat.
Proof. induction a as [|c a IH]; simpl; [reflexivity | now rewrite IH]. Qed.

Lemma py_len_append (a b : string) :
  py_len (String.append a b) = (py_len a + py_len b)%nat.
Proof.
  induction a as [|c a IH]; simpl; [reflexivity|].
  destruct (is_continuation c); now rewrite IH.
Qed.

(** [text[:n]] has [min n (len text)] characters and is a prefix of the
    text; what it leaves does not begin inside a character. *)
Lemma py_take_head (text : string) : forall n,
  py_len (py_take n text) = Nat.min n (py_len text) /\
  exists tail, text = String.append (py_take n text) tail.
Proof.
  induction text as [|c rest IH]; intro n; simpl.
  - split; [now rewrite Nat.min_0_r | now exists EmptyString].
  - destruct (is_continuation c) eqn:C; simpl; rewrite ?C.
    + destruct (IH n) as (L & tail & E).
      split; [exact L|]. exists tail. now rewrite <- E.
    + destruct n as [|n]; simpl; rewrite ?C.
      * split; [reflexivity|]. now exists (String c rest).
      * destruct (IH n) as (L & tail & E).
        split; [now rewrite L|]. exists tail. now rewrite <- E.
Qed.

(** X2: the label drawn over a code is the payload itself when it has at
    most 40 characters; otherwise it is the first 40 characters of the
    payload followed by three dots.  It never exceeds 43 characters.
    Characters are those of the text, not the bytes of its encoding. *)
Theorem display_text_truncates (qr_data : string) :
  ((py_len qr_data <= 40)%nat -> display_text qr_data = qr_data) /\
  ((40 < py_len qr_data)%nat ->
   exists head tail,
     qr_data = String.append head tail /\
     head = py_take 40 qr_data /\
     py_len head = 40%nat /\
     display_text qr_data = String.append head "...") /\
  (py_len (display_text qr_data) <= 43)%nat /\
  (forall x y w h, exists box,
     draw_qr_info qr_data (x, y, w, h)
     = [box; PutText (display_text qr_data) x (y - 10)]).
Proof.
  assert (forall x y w h, exists box,
            draw_qr_info qr_data (x, y, w, h)
            = [box; PutText (display_text qr_data) x (y - 10)]) as D.
  { intros. eexists. reflexivity. }
  unfold display_text at 1 2 3.
  destruct (py_take_head qr_data 40) as (L & tail & E).
  destruct (40 <? py_len qr_data)%nat eqn:C.
  - apply Nat.ltb_lt in C. rewrite Nat.min_l in L by lia.
    split; [lia|]. split; [|split; [|exact D]].
    + intros _. exists (py_take 40 qr_data), tail. auto.
    + rewrite py_len_append, L. simpl. lia.
  - apply Nat.ltb_ge in C. split; [reflexivity|].
    split; [lia|]. split; [lia | exact D].
Qed.

(** Fourteen Chinese characters, forty-two bytes: drawn whole.  Forty-one
    ASCII characters: cut to forty and dotted. *)
Example display_text_counts_characters :
  py_len "二维码内容二维码内容二维码内" = 14%nat /\
  String.length "二维码内容二维码内容二维码内" = 42%nat /\
  display_text "二维码内容二维码内容二维码内"
  = "二维码内容二维码内容二维码内" /\
  display_text "https://example.com/0123456789012345678901"
  = "https://example.com/01234567890123456789...".
Proof. repeat split. Qed.

(** ** The key handler *)

(** X3: the key handler looks at the low eight bits of what [waitKey]
    returns: two codes that agree modulo 256 trigger the same action, so a
    [q], [s] or [d] is recognised under any higher bits, and -1 (no key
    pressed) triggers nothing. *)
Theorem key_action_low_byte (a b : Z) :
  (a mod 256 = b mod 256 -> key_action a = key_action b)%Z /\
  (forall hi, key_action (ord "q" + 256 * hi) = KeyQuit)%Z /\
  (forall hi, key_action (ord "s" + 256 * hi) = KeyScreenshot)%Z /\
  (forall hi, key_action (ord "d" + 256 * hi) = KeyDebug)%Z /\
  key_action (-1) = KeyNone.
Proof.
  assert (forall z, Z.land z 255 = z mod 256)%Z as M.
  { intro z. change 255%Z with (Z.ones 8). now rewrite Z.land_ones by lia. }
  assert (forall c hi, (0 <= c < 256)%Z ->
            Z.land (c + 256 * hi) 255 = c)%Z as L.
  { intros c hi B. rewrite M, Z.mul_comm, Z_mod_plus_full.
    now apply Z.mod_small. }
  split; [|split; [|split; [|split]]].
  - intro H. unfold key_action. now rewrite !M, H.
  - intro hi. unfold key_action. rewrite L by (vm_compute; split; congruence).
    reflexivity.
  - intro hi. unfold key_action. rewrite L by (vm_compute; split; congruence).
    reflexivity.
  - intro hi. unfold key_action. rewrite L by (vm_compute; split; congruence).
    reflexivity.
  - reflexivity.
Qed.

(** ** Screenshot paths *)

Lemma append_inv_tail (x : string) : forall a b,
  String.append a x = String.append b x -> a = b.
Proof.
  assert (forall c b, x <> String c (String.append b x)) as N.
  { intros c b H. apply (f_equal String.length) in H.
    simpl in H. rewrite length_append in H. lia. }
  induction a as [|c a IH]; intros [|d b] H; simpl in H.
  - reflexivity.
  - now apply N in H.
  - symmetry in H. now apply N in H.
  - injection H as -> H. f_equal. now apply IH.
Qed.

Lemma py_str_inj (a b : Z) : py_str a = py_str b -> a = b.
Proof.
  unfold py_str. intro H. apply DecimalZ.to_int_inj.
  assert (forall z, NilZero.int_of_string (NilZero.string_of_int (Z.to_int z))
                    = Some (Z.to_int z)) as R.
  { intro z. apply NilZero.isi; destruct z; simpl; try discriminate;
      intro E; injection E as E;
      now apply DecimalPos.Unsigned.to_uint_nonnil in E. }
  apply (f_equal NilZero.int_of_string) in H. rewrite !R in H.
  now injection H.
Qed.

(** X4: two screenshots get the same path exactly when they are taken on
    the same day and within the same whole second of the clock: the later
    one then overwrites the earlier, and in every other case the two
    files are distinct. *)
Theorem screenshot_paths_collide_iff (base : Path) (day1 day2 : string)
    (t1 t2 : Q) :
  screenshot_filename base day1 t1 = screenshot_filename base day2 t2 <->
  day1 = day2 /\ py_int t1 = py_int t2.
Proof.
  unfold screenshot_filename, get_daily_screenshot_dir. split.
  - intro H. rewrite <- !app_assoc in H. apply app_inv_head in H.
    injection H as Hd Hn. split; [exact Hd|].
    apply append_inv_tail in Hn. now apply py_str_inj.
  - intros [-> ->]. reflexivity.
Qed.

(** ** A payload held in front of the camera *)

(** X5: handling the payload that was handled just before does nothing at
    all, whether the first call accepted it or not: no state change, no
    row, no log record, no browser. *)
Theorem accept_again_is_silent (cfg : Config) (s : Scanner) (f : CsvFile)
    (p : string) (e1 e2 : HandleEnv)
    (s1 : Scanner) (f1 : CsvFile) (ev1 : list Event) :
  accept cfg s f p e1 = (s1, f1, ev1) ->
  accept cfg s1 f1 p e2 = (s1, f1, []).
Proof.
  intro A. apply accept_seen.
  destruct (is_new s p) eqn:N.
  - apply seen_is_not_new.
    rewrite (accept_decoded_data _ _ _ _ _ _ _ _ A), N.
    apply in_or_app. right. now left.
  - rewrite (accept_seen _ _ _ _ _ N) in A. now inversion A; subst.
Qed.

Lemma accept_again_is_silent_witness :
  accept default_config
    (fst (fst (accept default_config (init 0%Q) None sample_url (env_at 10%Q))))
    (snd (fst (accept default_config (init 0%Q) None sample_url (env_at 10%Q))))
    sample_url (env_at 20%Q)
  = (fst (accept default_config (init 0%Q) None sample_url (env_at 10%Q)), []).
Proof.
  apply (accept_again_is_silent default_config (init 0%Q) None sample_url
           (env_at 10%Q) (env_at 20%Q) _ _
           (snd (accept default_config (init 0%Q) None sample_url
                   (env_at 10%Q)))).
  reflexivity.
Defined.

(** ** What a whole tick may do *)

Lemma announced_app (a b : list Event) :
  announced (a ++ b) = announced a ++ announced b.
Proof.
  induction a as [|ev a IH]; [reflexivity|].
  destruct ev; simpl; now rewrite IH.
Qed.

Lemma opened_app (a b : list Event) :
  opened (a ++ b) = opened a ++ opened b.
Proof.
  induction a as [|ev a IH]; [reflexivity|].
  destruct ev; simpl; now rewrite IH.
Qed.

(** An append logs nothing or its one error, and only ever adds its data
    row, behind the header when the file was absent. *)
Lemma save_to_csv_shape (f : CsvFile) (stamp data : string) (fault : CsvFault) :
  (snd (save_to_csv f stamp data fault) = [] \/
   snd (save_to_csv f stamp data fault) = [LogCsvFailed]) /\
  (exists added,
     rows_of (fst (save_to_csv f stamp data fault)) = rows_of f ++ added /\
     Forall (fun r => r = csv_header \/ r = [stamp; data]) added) /\
  (f <> None -> fst (save_to_csv f stamp data fault) <> None).
Proof.
  destruct fault, f as [rows|]; simpl;
    (split; [auto|]); (split; [|intro; congruence]).
  - exists [[stamp; data]]. split; [reflexivity|].
    constructor; [now right | constructor].
  - exists [csv_header; [stamp; data]]. split; [reflexivity|].
    constructor; [now left | constructor; [now right | constructor]].
  - exists []. split; [now rewrite app_nil_r | constructor].
  - exists []. split; [reflexivity | constructor].
  - exists []. split; [now rewrite app_nil_r | constructor].
  - exists []. split; [reflexivity | constructor].
Qed.

(** What a call announces and what it opens. *)
Lemma handle_events_read cfg s f p e :
  announced (h_events (handle_qr_data cfg s f p e))
  = (if is_new s p then [p] else []) /\
  opened (h_events (handle_qr_data cfg s f p e))
  = (if dispatched (handle_qr_data cfg s f p e) then [p] else []) /\
  Forall (fun ev => is_decode_log ev = false)
         (h_events (handle_qr_data cfg s f p e)).
Proof.
  unfold dispatched, handle_qr_data.
  destruct (is_new s p); [|repeat split; constructor].
  destruct (save_to_csv_shape f (csv_stamp e) p (csv_fault e)) as ([E|E] & _);
    destruct (save_to_csv f (csv_stamp e) p (csv_fault e)) as [f1 ev2];
    simpl in E; subst ev2;
    (destruct (is_url p); [destruct (Qgtb _ _)|]); simpl;
    repeat split; repeat constructor.
Qed.

Lemma advances_silent cfg s f evs s' :
  decoded_data s' = decoded_data s ->
  last_open_time s' = last_open_time s ->
  announced evs = [] -> opened evs = [] ->
  advances cfg s f evs s' f.
Proof.
  intros D L A O. unfold advances. rewrite D, L, A, O, app_nil_r.
  split; [reflexivity|].
  split; [exists []; split; [now rewrite app_nil_r | constructor]|].
  split; [auto|]. split; [intros _; apply Qle_refl | intros u []].
Qed.

Lemma advances_trans cfg s f e1 s1 f1 e2 s2 f2 :
  advances cfg s f e1 s1 f1 ->
  advances cfg s1 f1 e2 s2 f2 ->
  advances cfg s f (e1 ++ e2) s2 f2.
Proof.
  intros (D1 & (a1 & R1 & F1) & N1 & L1 & O1)
         (D2 & (a2 & R2 & F2) & N2 & L2 & O2).
  unfold advances. rewrite announced_app, opened_app.
  split; [now rewrite D2, D1, app_assoc|].
  split; [|split; [auto|split]].
  - exists (a1 ++ a2). split; [now rewrite R2, R1, app_assoc|].
    apply Forall_app. split; [eapply Forall_impl; [|exact F1]
                             |eapply Forall_impl; [|exact F2]];
      intros r [H|(st & p & H & I)]; auto; right; exists st, p;
      (split; [exact H|]); apply in_or_app; auto.
  - intro I. eapply Qle_trans; [apply L1 | apply L2]; exact I.
  - intros u H. apply in_app_or in H. destruct H as [H|H].
    + destruct (O1 u H) as [U I]. split; [exact U|]. apply in_or_app; auto.
    + destruct (O2 u H) as [U I]. split; [exact U|]. apply in_or_app; auto.
Qed.

Lemma accept_advances cfg s f p e s' f' evs :
  accept cfg s f p e = (s', f', evs) -> advances cfg s f evs s' f'.
Proof.
  intro A.
  pose proof (accept_decoded_data _ _ _ _ _ _ _ _ A) as D.
  pose proof (accept_last_open_time _ _ _ _ _ _ _ _ A) as L.
  pose proof (dispatched_iff cfg s f p e) as Di.
  destruct (handle_events_read cfg s f p e) as (An & Op & _).
  apply accept_node in A. destruct A as (_ & -> & ->).
  unfold advances. rewrite An, Op.
  split; [destruct (is_new s p); [exact D | now rewrite app_nil_r]|].
  split; [|split; [|split]].
  - destruct (is_new s p) eqn:N.
    + destruct (handle_new cfg s f p e N) as (_ & _ & _ & -> & _).
      destruct (save_to_csv_shape f (csv_stamp e) p (csv_fault e))
        as (_ & (added & R & F) & _).
      exists added. split; [exact R|].
      eapply Forall_impl; [|exact F].
      intros r [H|H]; [now left|]. right.
      exists (csv_stamp e), p. split; [exact H | now left].
    + rewrite (handle_seen _ _ _ _ _ N). simpl.
      exists []. split; [now rewrite app_nil_r | constructor].
  - destruct (is_new s p) eqn:N.
    + destruct (handle_new cfg s f p e N) as (_ & _ & _ & -> & _).
      apply save_to_csv_shape.
    + now rewrite (handle_seen _ _ _ _ _ N).
  - intro I. rewrite L.
    destruct (dispatched (handle_qr_data cfg s f p e)); [|apply Qle_refl].
    destruct Di as [Di _]. destruct (Di eq_refl) as (_ & _ & G). lra.
  - destruct (dispatched (handle_qr_data cfg s f p e)); [|intros u []].
    destruct Di as [Di _]. destruct (Di eq_refl) as (N & U & _).
    rewrite N. intros u [<-|[]]. split; [exact U | now left].
Qed.

Lemma scan_region_advances cfg s f evs r s' f' evs' :
  scan_region cfg (s, f, evs) r = (s', f', evs') ->
  exists added, evs' = evs ++ added /\ advances cfg s f added s' f'.
Proof.
  unfold scan_region. destruct (r_data r) as [p| |].
  - destruct (accept cfg s f p (r_env r)) as [[s1 f1] ev1] eqn:A.
    intro E. inversion E; subst. exists ev1. split; [reflexivity|].
    eapply accept_advances; exact A.
  - intro E. inversion E; subst. eexists. split; [reflexivity|].
    now apply advances_silent.
  - intro E. inversion E; subst. eexists. split; [reflexivity|].
    now apply advances_silent.
Qed.

Lemma scan_regions_advance cfg regions : forall s f evs s' f' evs',
  fold_left (scan_region cfg) regions (s, f, evs) = (s', f', evs') ->
  exists added, evs' = evs ++ added /\ advances cfg s f added s' f'.
Proof.
  induction regions as [|r rest IH]; intros s f evs s' f' evs' E.
  - inversion E; subst. exists []. split; [now rewrite app_nil_r|].
    now apply advances_silent.
  - cbn [fold_left] in E.
    destruct (scan_region cfg (s, f, evs) r) as [[s1 f1] ev1] eqn:R.
    apply scan_region_advances in R. destruct R as (a1 & -> & H1).
    apply IH in E. destruct E as (a2 & -> & H2).
    exists (a1 ++ a2). split; [now rewrite app_assoc|].
    eapply advances_trans; eassumption.
Qed.

Lemma process_frame_advances cfg s f t k :
  process_frame cfg s f t = inr k ->
  advances cfg s f (k_events k) (k_node k) (k_csv k).
Proof.
  unfold process_frame.
  destruct (skip_frames cfg + 1 =? 0)%Z; [discriminate|].
  destruct (negb _).
  - intro E. inversion E; subst. now apply advances_silent.
  - destruct (t_read t) as [regions|].
    + destruct (fold_left _ _ _) as [[s3 f3] evs] eqn:F.
      intro E. inversion E; subst. cbn [k_events k_node k_csv].
      apply scan_regions_advance in F. destruct F as (added & -> & H).
      refine (advances_trans cfg s f [] _ f added s3 f3 _ H).
      apply advances_silent; try reflexivity;
        unfold update_fps; destruct (Qle_bool _ _); reflexivity.
    + intro E. inversion E; subst. now apply advances_silent.
Qed.

(** X6: a tick appends to [decoded_data] exactly the payloads it
    announces in the log, in the order it announces them, and changes the
    list in no other way. *)
Theorem tick_appends_what_it_announces (cfg : Config) (s : Scanner)
    (f : CsvFile) (t : Tick) (k : Ticked) :
  process_frame cfg s f t = inr k ->
  decoded_data (k_node k) = decoded_data s ++ announced (k_events k).
Proof. intro H. apply (process_frame_advances _ _ _ _ _ H). Qed.

Lemma tick_appends_what_it_announces_witness :
  decoded_data (k_node url_tick_result)
  = decoded_data (init 0%Q) ++ [sample_url].
Proof.
  exact (tick_appends_what_it_announces every_frame (init 0%Q) None url_tick
           url_tick_result eq_refl).
Defined.

(** X7: whatever the file system does to the appends of a tick, the
    history file is only ever extended at its end: the rows it held stay
    as they were, each added row is the header or the data row of a
    payload announced in this tick, and a file that existed still exists. *)
Theorem tick_only_appends_rows (cfg : Config) (s : Scanner)
    (f : CsvFile) (t : Tick) (k : Ticked) :
  process_frame cfg s f t = inr k ->
  (exists added,
     rows_of (k_csv k) = rows_of f ++ added /\
     Forall (fun r => r = csv_header \/
                      exists stamp p,
                        r = [stamp; p] /\ In p (announced (k_events k)))
            added) /\
  (f <> None -> k_csv k <> None).
Proof.
  intro H. destruct (process_frame_advances _ _ _ _ _ H) as (_ & R & N & _).
  split; assumption.
Qed.

Lemma tick_only_appends_rows_witness :
  (exists added,
     rows_of (k_csv url_tick_result) = rows_of None ++ added /\
     Forall (fun r => r = csv_header \/
                      exists stamp p,
                        r = [stamp; p] /\
                        In p (announced (k_events url_tick_result)))
            added) /\
  (@None (list Row) <> None -> k_csv url_tick_result <> None).
Proof.
  exact (tick_only_appends_rows every_frame (init 0%Q) None url_tick
           url_tick_result eq_refl).
Defined.

(** X8: the browser is launched only on a URL that the same tick has just
    announced and recorded: never on a text that is not URL-shaped, and
    never on a payload the tick did not accept. *)
Theorem browser_opens_only_recorded_urls (cfg : Config) (s : Scanner)
    (f : CsvFile) (t : Tick) (k : Ticked) (u : string) :
  process_frame cfg s f t = inr k ->
  In u (opened (k_events k)) ->
  is_url u = true /\
  In u (announced (k_events k)) /\
  In u (decoded_data (k_node k)).
Proof.
  intros H O.
  destruct (process_frame_advances _ _ _ _ _ H) as (D & _ & _ & _ & B).
  destruct (B u O) as [U A]. split; [exact U|]. split; [exact A|].
  rewrite D. apply in_or_app. now right.
Qed.

Lemma browser_opens_only_recorded_urls_witness :
  is_url sample_url = true /\
  In sample_url (announced (k_events url_tick_result)) /\
  In sample_url (decoded_data (k_node url_tick_result)).
Proof.
  apply (browser_opens_only_recorded_urls every_frame (init 0%Q) None url_tick
           url_tick_result sample_url eq_refl).
  simpl. now left.
Defined.

(** ** What a whole run may do *)

(** X9: over any run of ticks, [decoded_data] and the history file only
    grow: entries are added at the end of the list and rows at the end of
    the file, nothing is removed or reordered, and the file, once there,
    stays. *)
Theorem run_only_grows (cfg : Config) (ticks : list Tick) (s : Scanner)
    (f : CsvFile) (os : list Outcome) (s' : Scanner) (f' : CsvFile) :
  run_ticks cfg s f ticks = inr (os, s', f') ->
  (exists more, decoded_data s' = decoded_data s ++ more) /\
  (exists added, rows_of f' = rows_of f ++ added) /\
  (f <> None -> f' <> None).
Proof.
  revert s f os s' f'.
  induction ticks as [|t rest IH]; intros s f os s' f' H.
  - inversion H; subst. split; [exists []; now rewrite app_nil_r|].
    split; [exists []; now rewrite app_nil_r | auto].
  - cbn [run_ticks] in H.
    destruct (process_frame cfg s f t) as [x|k] eqn:P; [discriminate|].
    destruct (run_ticks cfg (k_node k) (k_csv k) rest)
      as [x|[[os1 s1] f1]] eqn:R; [discriminate|].
    inversion H; subst.
    destruct (process_frame_advances _ _ _ _ _ P)
      as (D & (a1 & R1 & _) & N1 & _).
    destruct (IH _ _ _ _ _ R) as ((m2 & D2) & (a2 & R2) & N2).
    split; [exists (announced (k_events k) ++ m2);
            now rewrite D2, D, app_assoc|].
    split; [exists (a1 ++ a2); now rewrite R2, R1, app_assoc | auto].
Qed.

Lemma run_only_grows_witness :
  (exists more, decoded_data (k_node url_tick_result)
                = decoded_data (init 0%Q) ++ more) /\
  (exists added, rows_of (k_csv url_tick_result) = rows_of None ++ added) /\
  (@None (list Row) <> None -> k_csv url_tick_result <> None).
Proof.
  exact (run_only_grows every_frame [url_tick] (init 0%Q) None
           [Processed] (k_node url_tick_result)
           (k_csv url_tick_result) eq_refl).
Defined.

(** X10: when [open_interval] is not negative, [last_open_time] never
    moves backwards over a run, whatever the clock returns. *)
Theorem last_open_time_never_goes_back (cfg : Config) (ticks : list Tick)
    (s : Scanner) (f : CsvFile) (os : list Outcome) (s' : Scanner)
    (f' : CsvFile) :
  (0 <= open_interval cfg)%Q ->
  run_ticks cfg s f ticks = inr (os, s', f') ->
  (last_open_time s <= last_open_time s')%Q.
Proof.
  intro I. revert s f os s' f'.
  induction ticks as [|t rest IH]; intros s f os s' f' H.
  - inversion H; subst. apply Qle_refl.
  - cbn [run_ticks] in H.
    destruct (process_frame cfg s f t) as [x|k] eqn:P; [discriminate|].
    destruct (run_ticks cfg (k_node k) (k_csv k) rest)
      as [x|[[os1 s1] f1]] eqn:R; [discriminate|].
    inversion H; subst.
    destruct (process_frame_advances _ _ _ _ _ P) as (_ & _ & _ & L & _).
    eapply Qle_trans; [apply L, I | eapply IH, R].
Qed.

Lemma last_open_time_never_goes_back_witness :
  (last_open_time (init 0%Q) <= last_open_time (k_node url_tick_result))%Q.
Proof.
  apply (last_open_time_never_goes_back every_frame [url_tick]
           (init 0%Q) None [Processed] (k_node url_tick_result)
           (k_csv url_tick_result));
    [discriminate | reflexivity].
Defined.

(** ** The history file against [decoded_data] *)

Lemma accept_history cfg s f p e s' f' evs :
  csv_fault e = CsvFine ->
  history_matches s f ->
  accept cfg s f p e = (s', f', evs) ->
  history_matches s' f'.
Proof.
  intros F H A. destruct (is_new s p) eqn:N.
  - pose proof (accept_decoded_data _ _ _ _ _ _ _ _ A) as D. rewrite N in D.
    apply accept_node in A. destruct A as (_ & -> & _).
    destruct (handle_new cfg s f p e N) as (_ & _ & _ & -> & _).
    rewrite F. unfold history_matches in *. destruct f as [rows|]; simpl.
    + destruct H as (data_rows & -> & _ & M).
      exists (data_rows ++ [[csv_stamp e; p]]).
      split; [reflexivity|]. split; [now destruct data_rows|].
      rewrite map_app, M, D. reflexivity.
    + exists [[csv_stamp e; p]]. split; [reflexivity|].
      split; [discriminate|]. rewrite D, H. reflexivity.
  - rewrite (accept_seen _ _ _ _ _ N) in A. now inversion A; subst.
Qed.

Lemma scan_regions_history cfg regions : forall s f evs s' f' evs',
  Forall region_fault_free regions ->
  history_matches s f ->
  fold_left (scan_region cfg) regions (s, f, evs) = (s', f', evs') ->
  history_matches s' f'.
Proof.
  induction regions as [|r rest IH]; intros s f evs s' f' evs' F H E.
  - now inversion E; subst.
  - cbn [fold_left] in E. inversion F as [|? ? Fr Frest]; subst.
    destruct (scan_region cfg (s, f, evs) r) as [[s1 f1] ev1] eqn:R.
    apply (IH _ _ _ _ _ _ Frest) in E; [exact E|].
    unfold scan_region in R. destruct (r_data r) as [p| |];
      try (now inversion R; subst).
    destruct (accept cfg s f p (r_env r)) as [[s2 f2] ev2] eqn:A.
    inversion R; subst. eapply accept_history; eassumption.
Qed.

Lemma process_frame_history cfg s f t k :
  tick_fault_free t ->
  history_matches s f ->
  process_frame cfg s f t = inr k ->
  history_matches (k_node k) (k_csv k).
Proof.
  unfold process_frame, tick_fault_free. intros F H.
  destruct (skip_frames cfg + 1 =? 0)%Z; [discriminate|].
  destruct (negb _).
  - intro E. inversion E; subst. exact H.
  - destruct (t_read t) as [regions|].
    + destruct (fold_left _ _ _) as [[s3 f3] evs] eqn:R.
      intro E. inversion E; subst. cbn [k_node k_csv].
      eapply scan_regions_history; [exact F | | exact R].
      unfold update_fps. destruct (Qle_bool _ _); exact H.
    + intro E. inversion E; subst. exact H.
Qed.

Lemma run_ticks_history cfg ticks : forall s f os s' f',
  Forall tick_fault_free ticks ->
  history_matches s f ->
  run_ticks cfg s f ticks = inr (os, s', f') ->
  history_matches s' f'.
Proof.
  induction ticks as [|t rest IH]; intros s f os s' f' F H E.
  - now inversion E; subst.
  - cbn [run_ticks] in E. inversion F as [|? ? Ft Frest]; subst.
    destruct (process_frame cfg s f t) as [x|k] eqn:P; [discriminate|].
    destruct (run_ticks cfg (k_node k) (k_csv k) rest)
      as [x|[[os1 s1] f1]] eqn:R; [discriminate|].
    inversion E; subst.
    eapply IH; [exact Frest | | exact R].
    eapply process_frame_history; eassumption.
Qed.

(** X11: a node started without a history file, whose appends all
    succeed, keeps the file in step with [decoded_data]: after any run the
    file is absent if nothing was accepted, and otherwise holds the header
    followed by one row per accepted payload, in the order of acceptance. *)
Theorem history_file_lists_decoded_data (cfg : Config) (t0 : Q)
    (ticks : list Tick) (os : list Outcome) (s' : Scanner) (f' : CsvFile) :
  Forall tick_fault_free ticks ->
  run_ticks cfg (init t0) None ticks = inr (os, s', f') ->
  match f' with
  | None => decoded_data s' = []
  | Some rows =>
      exists data_rows,
        rows = csv_header :: data_rows /\
        data_rows <> [] /\
        map payload_of data_rows = decoded_data s'
  end.
Proof.
  intros F E.
  apply (run_ticks_history cfg ticks (init t0) None os s' f' F); [|exact E].
  reflexivity.
Qed.

Lemma history_file_lists_decoded_data_witness :
  exists data_rows,
    [csv_header; ["2024-05-01 10:00:00"; sample_url]]
    = csv_header :: data_rows /\
    data_rows <> [] /\
    map payload_of data_rows = [sample_url].
Proof.
  apply (history_file_lists_decoded_data every_frame 0%Q [url_tick]
           [Processed] (k_node url_tick_result) (k_csv url_tick_result));
    [|reflexivity].
  repeat constructor.
Defined.

(** ** Regions that do not decode *)

Lemma without_decode_logs_app (a b : list Event) :
  without_decode_logs (a ++ b) = without_decode_logs a ++ without_decode_logs b.
Proof. apply filter_app. Qed.

Lemma without_decode_logs_accept cfg s f p e s' f' evs :
  accept cfg s f p e = (s', f', evs) -> without_decode_logs evs = evs.
Proof.
  intro A. apply accept_node in A. destruct A as (_ & _ & ->).
  destruct (handle_events_read cfg s f p e) as (_ & _ & F).
  induction F as [|ev evs Hev F IH]; [reflexivity|].
  unfold without_decode_logs in *. simpl. now rewrite Hev, IH.
Qed.

Lemma scan_regions_drop_undecodable cfg regions : forall s f evs s' f' evs',
  fold_left (scan_region cfg) regions (s, f, evs) = (s', f', evs') ->
  fold_left (scan_region cfg) (filter is_text regions)
            (s, f, without_decode_logs evs)
  = (s', f', without_decode_logs evs').
Proof.
  induction regions as [|r rest IH]; intros s f evs s' f' evs' E.
  - now inversion E; subst.
  - cbn [fold_left] in E.
    destruct (scan_region cfg (s, f, evs) r) as [[s1 f1] ev1] eqn:R.
    apply IH in E. cbn [filter]. unfold is_text at 1.
    unfold scan_region in R. destruct (r_data r) as [p| |] eqn:Dr.
    + cbn [fold_left]. unfold scan_region at 2. rewrite Dr.
      destruct (accept cfg s f p (r_env r)) as [[s2 f2] ev2] eqn:A.
      inversion R; subst.
      rewrite without_decode_logs_app,
              (without_decode_logs_accept _ _ _ _ _ _ _ _ A) in E.
      exact E.
    + inversion R; subst.
      rewrite without_decode_logs_app in E. simpl in E.
      now rewrite app_nil_r in E.
    + inversion R; subst.
      rewrite without_decode_logs_app in E. simpl in E.
      now rewrite app_nil_r in E.
Qed.

(** X12: a region whose bytes do not decode costs a log record and nothing
    else: the tick ends in the same state, with the same file, the same
    outcome and otherwise the same log as if the decoder had not reported
    that region at all. *)
Theorem undecodable_regions_only_log (cfg : Config) (s : Scanner)
    (f : CsvFile) (t : Tick) (k : Ticked) :
  process_frame cfg s f t = inr k ->
  process_frame cfg s f (drop_undecodable t)
  = inr (mkTicked (k_outcome k) (k_node k) (k_csv k)
                  (without_decode_logs (k_events k))).
Proof.
  unfold process_frame, drop_undecodable. cbn [t_read].
  destruct (skip_frames cfg + 1 =? 0)%Z; [discriminate|].
  destruct (negb _).
  - intro E. inversion E; subst. reflexivity.
  - destruct (t_read t) as [regions|]; cbn [option_map].
    + destruct (fold_left _ regions _) as [[s3 f3] evs] eqn:R.
      intro E. inversion E; subst. cbn [k_outcome k_node k_csv k_events].
      apply scan_regions_drop_undecodable in R.
      unfold update_fps in *. cbn [t_elapsed t_restart].
      simpl without_decode_logs in R. now rewrite R.
    + intro E. inversion E; subst. reflexivity.
Qed.

Lemma undecodable_regions_only_log_witness :
  process_frame every_frame (init 0%Q) None
    (mkTick (Some [mkRegion (Text sample_url) (env_at 10%Q)]) (1 # 2) (1 # 2))
  = inr (mkTicked Processed (k_node url_tick_result) (k_csv url_tick_result)
           [LogDecoded "2024-05-01 10:00:00" sample_url;
            BrowserThread sample_url]).
Proof.
  exact (undecodable_regions_only_log every_frame (init 0%Q) None url_tick
           url_tick_result eq_refl).
Defined.

(** ** The throttle over a run *)

Lemma run_ticks_schedule cfg :
  (0 < skip_frames cfg + 1)%Z ->
  forall ticks s f os s' f',
    run_ticks cfg s f ticks = inr (os, s', f') ->
    List.length os = List.length ticks /\
    forall i o,
      nth_error os i = Some o ->
      (passed o = true <->
       ((frame_counter s + Z.of_nat i + 1) mod (skip_frames cfg + 1) = 0)%Z).
Proof.
  intro M. induction ticks as [|t rest IH]; intros s f os s' f' E.
  - inversion E; subst. split; [reflexivity|]. intros [|i] o H; discriminate.
  - cbn [run_ticks] in E.
    destruct (process_frame_throttle cfg s f t ltac:(lia)) as (k & P & C & Hp).
    rewrite P in E.
    destruct (run_ticks cfg (k_node k) (k_csv k) rest)
      as [x|[[os1 s1] f1]] eqn:R; [discriminate|].
    inversion E; subst. destruct (IH _ _ _ _ _ R) as (L & N).
    split; [cbn [List.length]; now rewrite L|].
    intros [|i] o H; cbn [nth_error] in H.
    + inversion H; subst. rewrite Hp, C.
      replace (frame_counter s + Z.of_nat 0 + 1)%Z
        with (frame_counter s + 1)%Z by lia.
      reflexivity.
    + rewrite (N i o H), C.
      replace (frame_counter s + Z.of_nat (S i) + 1)%Z
        with ((frame_counter s + 1) + (Z.of_nat i + 1))%Z by lia.
      rewrite <- Z.add_assoc, Zplus_mod_idemp_l. reflexivity.
Qed.

(** X13: counting the timer callbacks from [__init__] (or from any state
    with [frame_counter = 0]) and with [skip_frames = n >= 0], the
    callbacks that get past the throttle are exactly those whose number is
    a multiple of [n + 1]; every callback yields an outcome. *)
Theorem throttle_passes_every_multiple (cfg : Config) (ticks : list Tick)
    (s : Scanner) (f : CsvFile) (os : list Outcome) (s' : Scanner)
    (f' : CsvFile) :
  (0 <= skip_frames cfg)%Z ->
  frame_counter s = 0%Z ->
  run_ticks cfg s f ticks = inr (os, s', f') ->
  List.length os = List.length ticks /\
  forall i o,
    nth_error os i = Some o ->
    (passed o = true <->
     ((Z.of_nat i + 1) mod (skip_frames cfg + 1) = 0)%Z).
Proof.
  intros N C E.
  destruct (run_ticks_schedule cfg ltac:(lia) ticks s f os s' f' E) as (L & H).
  split; [exact L|]. intros i o Hi. rewrite (H i o Hi), C. reflexivity.
Qed.

Lemma throttle_passes_every_multiple_witness :
  List.length [Skipped; Skipped; ReadFailed] = 3%nat /\
  forall i o,
    nth_error [Skipped; Skipped; ReadFailed] i = Some o ->
    (passed o = true <-> ((Z.of_nat i + 1) mod (2 + 1) = 0)%Z).
Proof.
  apply (throttle_passes_every_multiple default_config
           [blind_tick; blind_tick; blind_tick] (init 0%Q) None
           [Skipped; Skipped; ReadFailed] (init 0%Q) None);
    [discriminate | reflexivity | reflexivity].
Defined.

(** X15: with [skip_frames = n >= 0], [frame_counter] lies between 0 and
    [n] in every state the node reaches. *)
Theorem frame_counter_in_range (cfg : Config) (s : Scanner) :
  (0 <= skip_frames cfg)%Z ->
  reachable cfg s ->
  (0 <= frame_counter s <= skip_frames cfg)%Z.
Proof.
  intros N R. induction R as [t0|s f p e s' f' evs R IH A|s f t k R IH T].
  - simpl. lia.
  - apply accept_node in A. destruct A as [-> _]. cbn [frame_counter set_last_decoded_data].
    destruct (handle_frame cfg s f p e) as (_ & _ & _ & ->). exact IH.
  - destruct (process_frame_throttle cfg s f t ltac:(lia)) as (k' & P & C & _).
    rewrite P in T. inversion T; subst. rewrite C.
    pose proof (Z.mod_pos_bound (frame_counter s + 1) (skip_frames cfg + 1)
                  ltac:(lia)).
    lia.
Qed.

Lemma frame_counter_in_range_witness :
  (0 <= frame_counter two_ticks_in <= 2)%Z.
Proof.
  apply (frame_counter_in_range default_config two_ticks_in);
    [discriminate|].
  exact (reach_tick default_config (set_frame_counter (init 0%Q) 1%Z) None
           blind_tick (mkTicked Skipped two_ticks_in None [])
           (reach_tick default_config (init 0%Q) None blind_tick
              (mkTicked Skipped (set_frame_counter (init 0%Q) 1%Z) None [])
              (reach_init default_config 0%Q) eq_refl)
           eq_refl).
Defined.

(** X16: a callback stopped by the throttle does nothing but advance
    [frame_counter], to a value other than 0: every other field keeps its
    value, the file is not touched and nothing is logged. *)
Theorem skipped_tick_only_counts (cfg : Config) (s : Scanner) (f : CsvFile)
    (t : Tick) (k : Ticked) :
  process_frame cfg s f t = inr k ->
  k_outcome k = Skipped ->
  k_node k
  = set_frame_counter s ((frame_counter s + 1) mod (skip_frames cfg + 1))%Z /\
  frame_counter (k_node k) <> 0%Z /\
  k_csv k = f /\
  k_events k = [].
Proof.
  unfold process_frame.
  destruct (skip_frames cfg + 1 =? 0)%Z; [discriminate|].
  cbn [frame_counter set_frame_counter].
  destruct ((frame_counter s + 1) mod (skip_frames cfg + 1) =? 0)%Z eqn:C;
    cbn [negb].
  - destruct (t_read t) as [regions|].
    + destruct (fold_left _ _ _) as [[s3 f3] evs].
      intros E O. inversion E; subst. discriminate.
    + intros E O. inversion E; subst. discriminate.
  - intros E _. inversion E; subst. apply Z.eqb_neq in C.
    repeat split. exact C.
Qed.

Lemma skipped_tick_only_counts_witness :
  process_frame default_config (init 0%Q) None url_tick
  = inr (mkTicked Skipped (set_frame_counter (init 0%Q) 1%Z) None []) /\
  frame_counter (set_frame_counter (init 0%Q) 1%Z) <> 0%Z.
Proof.
  split; [reflexivity|].
  apply (skipped_tick_only_counts default_config (init 0%Q) None url_tick
           (mkTicked Skipped (set_frame_counter (init 0%Q) 1%Z) None [])
           eq_refl eq_refl).
Defined.

(** ** The FPS estimate *)

Lemma scan_regions_fps cfg regions : forall s f evs s' f' evs',
  fold_left (scan_region cfg) regions (s, f, evs) = (s', f', evs') ->
  frame_count s' = frame_count s /\ fps s' = fps s /\
  start_time s' = start_time s.
Proof.
  induction regions as [|r rest IH]; intros s f evs s' f' evs' E.
  - now inversion E.
  - cbn [fold_left] in E.
    destruct (scan_region cfg (s, f, evs) r) as [[s1 f1] ev1] eqn:R.
    destruct (IH _ _ _ _ _ _ E) as (-> & -> & ->).
    unfold scan_region in R.
    destruct (r_data r) as [p| |]; try (now inversion R).
    destruct (accept cfg s f p (r_env r)) as [[s2 f2] ev2] eqn:A.
    inversion R; subst. apply accept_node in A. destruct A as [-> _].
    simpl. destruct (handle_frame cfg s f p (r_env r)) as (-> & -> & -> & _).
    auto.
Qed.

(** The three things a tick can do to [fps] and [frame_count]. *)
Lemma fps_bookkeeping_cases cfg s f t k :
  process_frame cfg s f t = inr k ->
  (fps (k_node k) = (frame_count s + 1)%Z /\ frame_count (k_node k) = 0%Z) \/
  (fps (k_node k) = fps s /\ frame_count (k_node k) = (frame_count s + 1)%Z) \/
  (fps (k_node k) = fps s /\ frame_count (k_node k) = frame_count s).
Proof.
  unfold process_frame.
  destruct (skip_frames cfg + 1 =? 0)%Z; [discriminate|].
  destruct (negb _).
  - intro E. inversion E; subst. simpl. auto.
  - destruct (t_read t) as [regions|].
    + destruct (fold_left _ _ _) as [[s3 f3] evs] eqn:R.
      intro E. inversion E; subst. cbn [k_node].
      destruct (scan_regions_fps _ _ _ _ _ _ _ _ R) as (-> & -> & _).
      unfold update_fps. destruct (Qle_bool _ _); simpl; auto.
    + intro E. inversion E; subst. simpl. auto.
Qed.

(** X17: the FPS fields change once per processed frame, whatever the
    frame shows.  If at least one second has passed since [start_time],
    the frame closes the window: [fps] becomes the count including this
    frame, [frame_count] restarts at 0 and [start_time] takes the second
    clock reading; otherwise [frame_count] goes up by one and the other
    two stay.  Skipped ticks and failed reads leave all three alone. *)
Theorem fps_window_bookkeeping (cfg : Config) (s : Scanner) (f : CsvFile)
    (t : Tick) (k : Ticked) :
  process_frame cfg s f t = inr k ->
  (k_outcome k = Processed ->
   (1 <= t_elapsed t - start_time s)%Q ->
   fps (k_node k) = (frame_count s + 1)%Z /\
   frame_count (k_node k) = 0%Z /\
   start_time (k_node k) = t_restart t) /\
  (k_outcome k = Processed ->
   ~ (1 <= t_elapsed t - start_time s)%Q ->
   fps (k_node k) = fps s /\
   frame_count (k_node k) = (frame_count s + 1)%Z /\
   start_time (k_node k) = start_time s) /\
  (k_outcome k <> Processed ->
   fps (k_node k) = fps s /\
   frame_count (k_node k) = frame_count s /\
   start_time (k_node k) = start_time s).
Proof.
  unfold process_frame.
  destruct (skip_frames cfg + 1 =? 0)%Z; [discriminate|].
  destruct (negb _).
  - intro E. inversion E; subst. simpl.
    repeat split; try discriminate; auto.
  - destruct (t_read t) as [regions|].
    + destruct (fold_left _ _ _) as [[s3 f3] evs] eqn:R.
      intro E. inversion E; subst. cbn [k_outcome k_node].
      destruct (scan_regions_fps _ _ _ _ _ _ _ _ R) as (-> & -> & ->).
      unfold update_fps. cbn [start_time frame_count fps set_frame_counter].
      destruct (Qle_bool 1 (t_elapsed t - start_time s)) eqn:W.
      * apply Qle_bool_iff in W. simpl.
        split; [auto|]. split; [intros _ H; contradiction|].
        intro H; contradiction.
      * assert (~ (1 <= t_elapsed t - start_time s)%Q) as NW.
        { intro H. apply Qle_bool_iff in H. congruence. }
        simpl. split; [intros _ H; contradiction|].
        split; [auto|]. intro H; contradiction.
    + intro E. inversion E; subst. simpl.
      repeat split; try discriminate; auto.
Qed.

Lemma fps_window_bookkeeping_witness :
  fps (k_node url_tick_result) = 0%Z /\
  frame_count (k_node url_tick_result) = (0 + 1)%Z /\
  start_time (k_node url_tick_result) = 0%Q.
Proof.
  apply (proj1 (proj2 (fps_window_bookkeeping every_frame (init 0%Q) None
                         url_tick url_tick_result eq_refl)));
    [reflexivity|].
  intro H. now apply H.
Defined.

(** X18: [frame_count] and [fps] are never negative in a state the node
    reaches. *)
Theorem fps_counts_nonnegative (cfg : Config) (s : Scanner) :
  reachable cfg s -> (0 <= frame_count s)%Z /\ (0 <= fps s)%Z.
Proof.
  intro R. induction R as [t0|s f p e s' f' evs R IH A|s f t k R IH T].
  - simpl. lia.
  - apply accept_node in A. destruct A as [-> _]. simpl.
    destruct (handle_frame cfg s f p e) as (-> & -> & _). exact IH.
  - destruct (fps_bookkeeping_cases cfg s f t k T) as [(-> & ->)|[(-> & ->)|(-> & ->)]];
      lia.
Qed.

Lemma fps_counts_nonnegative_witness :
  (0 <= frame_count two_ticks_in)%Z /\ (0 <= fps two_ticks_in)%Z.
Proof.
  apply (fps_counts_nonnegative default_config two_ticks_in).
  exact (reach_tick default_config (set_frame_counter (init 0%Q) 1%Z) None
           blind_tick (mkTicked Skipped two_ticks_in None [])
           (reach_tick default_config (init 0%Q) None blind_tick
              (mkTicked Skipped (set_frame_counter (init 0%Q) 1%Z) None [])
              (reach_init default_config 0%Q) eq_refl)
           eq_refl).
Defined.

(** With [skip_frames = 0] the throttle passes every tick and a failed
    read leaves even [frame_counter] where it was, at 0. *)
Example read_failure_at_every_frame :
  process_frame every_frame (init 0%Q) None blind_tick
  = inr (mkTicked ReadFailed (init 0%Q) None [LogReadFailed]).
Proof. reflexivity. Qed.
